(** * AI-Agent-Call-Recovery: the resilience core, embedded and verified

    A shallow embedding of the Python sources
      exceptions.py, circuit_breaker.py, retry_manager.py,
      logger.py, alerts.py, call_agent.py
    followed by the theorems that settle the specification's claims.

    Conventions of the embedding.
    - Python integers are [Z].  Wall-clock readings ([time.time()]) and
      durations ([time.sleep], the breaker's [timeout]) are [Z] time units:
      the source uses floats, the claims only compare and add them.
    - A Python call that may raise returns an [outcome]: [Ok v] or [Err e].
    - Objects mutated by a method ([self]) are passed in and returned.
    - The services wrapped by the breakers are external collaborators: a
      [callable] acts on the external environment [Env] (its own state and
      the clock) and on nothing else.
    - [World] adds to [Env] what the core itself does to the outside: the
      two JSON files of the logger and the alert system, and an observation
      [trace] that records every invocation of a callable and every
      [time.sleep], in order.
    - Console output ([print]) is not modelled. *)

From Stdlib Require Import ZArith String List Bool DecimalString Lia.
Import ListNotations.

Local Open Scope Z_scope.

(* ================================================================== *)
(** * exceptions.py *)

Module exceptions.

Local Open Scope string_scope.
Local Open Scope Z_scope.

(** The exception classes of exceptions.py, together with the builtin
    [Exception] they derive from.  [Builtin name] stands for any other
    builtin subclass of [Exception] (ValueError, KeyError, ...). *)
Inductive exn_class : Type :=
| Exception
| Builtin (name : string)
| CallAgentError
| TransientError
| TimeoutError
| NetworkError
| ServiceUnavailableError
| RateLimitError
| PermanentError
| AuthenticationError
| InvalidPayloadError
| QuotaExceededError
| ResourceNotFoundError.

(** The base named in each [class] statement. *)
Definition base (c : exn_class) : option exn_class :=
  match c with
  | Exception => None
  | Builtin _ => Some Exception
  | CallAgentError => Some Exception
  | TransientError => Some CallAgentError
  | TimeoutError => Some TransientError
  | NetworkError => Some TransientError
  | ServiceUnavailableError => Some TransientError
  | RateLimitError => Some TransientError
  | PermanentError => Some CallAgentError
  | AuthenticationError => Some PermanentError
  | InvalidPayloadError => Some PermanentError
  | QuotaExceededError => Some PermanentError
  | ResourceNotFoundError => Some PermanentError
  end.

Definition exn_class_eqb (a b : exn_class) : bool :=
  match a, b with
  | Exception, Exception => true
  | Builtin x, Builtin y => String.eqb x y
  | CallAgentError, CallAgentError => true
  | TransientError, TransientError => true
  | TimeoutError, TimeoutError => true
  | NetworkError, NetworkError => true
  | ServiceUnavailableError, ServiceUnavailableError => true
  | RateLimitError, RateLimitError => true
  | PermanentError, PermanentError => true
  | AuthenticationError, AuthenticationError => true
  | InvalidPayloadError, InvalidPayloadError => true
  | QuotaExceededError, QuotaExceededError => true
  | ResourceNotFoundError, ResourceNotFoundError => true
  | _, _ => false
  end.

(** The class and its ancestors, nearest first.  The hierarchy is four
    levels deep. *)
Fixpoint ancestors (depth : nat) (c : exn_class) : list exn_class :=
  match depth with
  | O => []
  | S d => c :: match base c with
                | None => []
                | Some b => ancestors d b
                end
  end.

Definition mro (c : exn_class) : list exn_class := ancestors 4 c.

Definition issubclass (c k : exn_class) : bool :=
  existsb (exn_class_eqb k) (mro c).

(** An exception instance.  [message] is [self.message] of a
    [CallAgentError] and the constructor argument ([str(e)]) of a builtin
    exception; [service_name] defaults to [None]. *)
Record exn : Type := mk_exn {
  cls : exn_class;
  message : string;
  service_name : option string
}.

Definition isinstance (e : exn) (k : exn_class) : bool :=
  issubclass (cls e) k.

(** [Cls(message)], with [service_name] left at its default. *)
Definition new (k : exn_class) (msg : string) : exn :=
  mk_exn k msg None.

(** [str(n)] of an [int], as an f-string renders it. *)
Definition str_int (n : Z) : string :=
  NilZero.string_of_int (Z.to_int n).

Definition classify_error (status_code : Z) (error_message : string) : exn :=
  if status_code =? 503 then
    new ServiceUnavailableError ("Service unavailable (503): " ++ error_message)
  else if status_code =? 429 then
    new RateLimitError ("Rate limit exceeded (429): " ++ error_message)
  else if (status_code =? 408) || (status_code =? 504) then
    new TimeoutError
        ("Request timeout (" ++ str_int status_code ++ "): " ++ error_message)
  else if (status_code =? 401) || (status_code =? 403) then
    new AuthenticationError
        ("Authentication failed (" ++ str_int status_code ++ "): " ++ error_message)
  else if status_code =? 404 then
    new ResourceNotFoundError ("Resource not found (404): " ++ error_message)
  else if status_code =? 400 then
    new InvalidPayloadError ("Invalid request (400): " ++ error_message)
  else if (500 <=? status_code) && (status_code <? 600) then
    new TransientError
        ("Server error (" ++ str_int status_code ++ "): " ++ error_message)
  else
    new PermanentError
        ("Unknown error (" ++ str_int status_code ++ "): " ++ error_message).

End exceptions.

(* ================================================================== *)
(** * The Python runtime the sources rely on *)

Module runtime.

Import exceptions.

(** Payloads exchanged with the services.  The core never inspects them. *)
Inductive value : Type :=
| VNone
| VStr (s : string)
| VBytes (b : string)
| VInt (n : Z).

(** What a call yields: the returned value, or the exception raised. *)
Inductive outcome : Type :=
| Ok (v : value)
| Err (e : exn).

(** The external environment: the wall clock and the collaborators' own
    state (call counters, random generators, remote servers, ...). *)
Record Env (St : Type) : Type := mk_env {
  clock : Z;
  ext : St
}.

Arguments mk_env {St} _ _.
Arguments clock {St} _.
Arguments ext {St} _.

(** What an external function does when called: it may read and advance
    the clock and change the collaborators' state, and it returns or
    raises. *)
Definition behaviour (St : Type) : Type :=
  list value -> Env St -> outcome * Env St.

(** A function object handed to the core: a name and a behaviour. *)
Record callable (St : Type) : Type := mk_callable {
  c_name : string;
  c_body : behaviour St
}.

Arguments mk_callable {St} _ _.
Arguments c_name {St} _.
Arguments c_body {St} _.

(** Observations: a callable was invoked, the caller was suspended. *)
Inductive event : Type :=
| EvInvoke (name : string) (args : list value)
| EvSleep (seconds : Z).

(** One dict appended to logs/error_log.json by [log_error].  [timestamp]
    is the clock reading that [datetime.now().isoformat()] renders. *)
Record log_entry : Type := mk_log_entry {
  log_timestamp : Z;
  log_service_name : string;
  log_error_type : string;
  log_error_message : string;
  log_retry_count : Z;
  log_circuit_state : string;
  log_additional_info : option value
}.

(** One dict appended to logs/alerts.json by [send_alert]. *)
Record alert : Type := mk_alert {
  alert_timestamp : Z;
  alert_severity : string;
  alert_service_name : string;
  alert_error_message : string;
  alert_status : string;
  alert_additional_info : option value
}.

Record World (St : Type) : Type := mk_world {
  env : Env St;
  trace : list event;
  error_log : list log_entry;     (* contents of logs/error_log.json *)
  alerts_file : list alert        (* contents of logs/alerts.json *)
}.

Arguments mk_world {St} _ _ _ _.
Arguments env {St} _.
Arguments trace {St} _.
Arguments error_log {St} _.
Arguments alerts_file {St} _.

Section Primitives.

Context {St : Type}.

Definition set_env (e : Env St) (w : World St) : World St :=
  mk_world e (trace w) (error_log w) (alerts_file w).

Definition record (ev : event) (w : World St) : World St :=
  mk_world (env w) (trace w ++ [ev]) (error_log w) (alerts_file w).

(** [time.time()] *)
Definition time_time (w : World St) : Z := clock (env w).

(** [time.sleep(seconds)]: raises ValueError on a negative length,
    otherwise suspends the caller for that long. *)
Definition time_sleep (seconds : Z) (w : World St) : exn + World St :=
  if seconds <? 0 then
    inl (new (Builtin "ValueError") "sleep length must be non-negative")
  else
    inr (record (EvSleep seconds)
           (set_env (mk_env (clock (env w) + seconds) (ext (env w))) w)).

(** Calling the function object [f] on the positional arguments [args]. *)
Definition invoke (f : callable St) (args : list value) (w : World St)
  : outcome * World St :=
  let (r, e') := c_body f args (env w) in
  (r, set_env e' (record (EvInvoke (c_name f) args) w)).

End Primitives.

End runtime.

(* ================================================================== *)
(** * logger.py *)

Module logger.

Import runtime.

Section Logger.

Context {St : Type}.

(** [ErrorLogger.log_error]: builds the entry, reads the file, appends,
    writes back.  File access is taken to succeed. *)
Definition log_error (service_name error_type error_message : string)
  (retry_count : Z) (circuit_state : string) (additional_info : option value)
  (w : World St) : World St :=
  let log_entry :=
    mk_log_entry (time_time w) service_name error_type error_message
                 retry_count circuit_state additional_info in
  let logs := error_log w in
  let logs := logs ++ [log_entry] in
  mk_world (env w) (trace w) logs (alerts_file w).

(** The slice [l[start:]] of a list: a negative [start] counts from the
    end, and a [start] beyond either end is clamped to it. *)
Definition slice_from {A : Type} (start : Z) (l : list A) : list A :=
  let n := Z.of_nat (length l) in
  let first := if start <? 0 then Z.max (n + start) 0 else Z.min start n in
  skipn (Z.to_nat first) l.

(** [ErrorLogger.get_recent_logs]: [logs[-count:]] of the file. *)
Definition get_recent_logs (count : Z) (w : World St) : list log_entry :=
  let logs := error_log w in
  slice_from (- count) logs.

(** [ErrorLogger.clear_logs] *)
Definition clear_logs (w : World St) : World St :=
  mk_world (env w) (trace w) [] (alerts_file w).

End Logger.

End logger.

(* ================================================================== *)
(** * alerts.py *)

Module alerts.

Import runtime.

Section Alerts.

Context {St : Type}.

(** [AlertSystem.send_alert] *)
Definition send_alert (severity service_name error_message : string)
  (additional_info : option value) (w : World St) : World St :=
  let alert :=
    mk_alert (time_time w) severity service_name error_message
             "UNRESOLVED" additional_info in
  let alerts := alerts_file w in
  let alerts := alerts ++ [alert] in
  mk_world (env w) (trace w) (error_log w) alerts.

(** [AlertSystem.get_active_alerts] *)
Definition get_active_alerts (w : World St) : list alert :=
  let alerts := alerts_file w in
  filter (fun a => String.eqb (alert_status a) "UNRESOLVED") alerts.

(** [AlertSystem.clear_alerts] *)
Definition clear_alerts (w : World St) : World St :=
  mk_world (env w) (trace w) (error_log w) [].

End Alerts.

End alerts.

(* ================================================================== *)
(** * circuit_breaker.py *)

Module circuit_breaker.

Import exceptions runtime.

Local Open Scope string_scope.
Local Open Scope Z_scope.

Inductive CircuitState : Type :=
| CLOSED
| OPEN
| HALF_OPEN.

(** [CircuitState.value] *)
Definition state_value (s : CircuitState) : string :=
  match s with
  | CLOSED => "CLOSED"
  | OPEN => "OPEN"
  | HALF_OPEN => "HALF_OPEN"
  end.

Definition state_eqb (a b : CircuitState) : bool :=
  match a, b with
  | CLOSED, CLOSED => true
  | OPEN, OPEN => true
  | HALF_OPEN, HALF_OPEN => true
  | _, _ => false
  end.

(** The attributes of a [CircuitBreaker] instance. *)
Record CircuitBreaker : Type := mk_breaker {
  failure_threshold : Z;
  timeout : Z;
  service_name : string;
  state : CircuitState;
  failure_count : Z;
  last_failure_time : option Z;
  success_count : Z
}.

Definition __init__ (failure_threshold timeout : Z) (service_name : string)
  : CircuitBreaker :=
  mk_breaker failure_threshold timeout service_name CLOSED 0 None 0.

(** Attribute assignments. *)
Definition set_state (s : CircuitState) (self : CircuitBreaker) : CircuitBreaker :=
  mk_breaker (failure_threshold self) (timeout self) (service_name self)
             s (failure_count self) (last_failure_time self) (success_count self).

Definition set_failure_count (n : Z) (self : CircuitBreaker) : CircuitBreaker :=
  mk_breaker (failure_threshold self) (timeout self) (service_name self)
             (state self) n (last_failure_time self) (success_count self).

Definition set_last_failure_time (t : option Z) (self : CircuitBreaker)
  : CircuitBreaker :=
  mk_breaker (failure_threshold self) (timeout self) (service_name self)
             (state self) (failure_count self) t (success_count self).

Definition set_success_count (n : Z) (self : CircuitBreaker) : CircuitBreaker :=
  mk_breaker (failure_threshold self) (timeout self) (service_name self)
             (state self) (failure_count self) (last_failure_time self) n.

(** The exception raised while the circuit is open. *)
Definition open_error (self : CircuitBreaker) : exn :=
  new Exception
      (" [Circuit breaker] OPEN for " ++ service_name self ++ " - failing fast").

(** The dict returned by [get_state]. *)
Record Snapshot : Type := mk_snapshot {
  snap_state : string;
  snap_failure_count : Z;
  snap_service_name : string
}.

Definition get_state (self : CircuitBreaker) : Snapshot :=
  mk_snapshot (state_value (state self)) (failure_count self) (service_name self).

Definition reset (self : CircuitBreaker) : CircuitBreaker :=
  set_last_failure_time None (set_failure_count 0 (set_state CLOSED self)).

Definition _on_success (self : CircuitBreaker) : CircuitBreaker :=
  if state_eqb (state self) HALF_OPEN then
    set_success_count 0 (set_failure_count 0 (set_state CLOSED self))
  else if state_eqb (state self) CLOSED then
    set_failure_count 0 self
  else self.

Section Breaker.

Context {St : Type}.

Definition _should_attempt_reset (self : CircuitBreaker) (w : World St) : bool :=
  match last_failure_time self with
  | None => false
  | Some t =>
      let time_since_failure := time_time w - t in
      timeout self <=? time_since_failure
  end.

Definition _on_failure (self : CircuitBreaker) (w : World St) : CircuitBreaker :=
  let self := set_failure_count (failure_count self + 1) self in
  let self := set_last_failure_time (Some (time_time w)) self in
  if state_eqb (state self) HALF_OPEN then
    set_state OPEN self
  else if state_eqb (state self) CLOSED then
    if failure_threshold self <=? failure_count self then
      set_state OPEN self
    else self
  else self.

(** The first statement of [call]: an OPEN breaker either moves to
    HALF_OPEN or refuses the call. *)
Definition gate (self : CircuitBreaker) (w : World St) : exn + CircuitBreaker :=
  if state_eqb (state self) OPEN then
    if _should_attempt_reset self w then
      inr (set_state HALF_OPEN self)
    else
      inl (open_error self)
  else inr self.

(** The [try] statement of [call]. *)
Definition attempt (self : CircuitBreaker) (func : callable St)
  (args : list value) (w : World St) : outcome * CircuitBreaker * World St :=
  let (r, w) := invoke func args w in
  match r with
  | Ok result => (Ok result, _on_success self, w)
  | Err e => (Err e, _on_failure self w, w)
  end.

Definition call (self : CircuitBreaker) (func : callable St)
  (args : list value) (w : World St) : outcome * CircuitBreaker * World St :=
  match gate self w with
  | inl e => (Err e, self, w)
  | inr self => attempt self func args w
  end.

End Breaker.

End circuit_breaker.

(* ================================================================== *)
(** * retry_manager.py *)

Module retry_manager.

Import exceptions runtime.

Local Open Scope Z_scope.

Record RetryManager : Type := mk_retry_manager {
  initial_delay : Z;
  backoff_multiplier : Z;
  max_attempts : Z
}.

Definition __init__ (initial_delay backoff_multiplier max_attempts : Z)
  : RetryManager :=
  mk_retry_manager initial_delay backoff_multiplier max_attempts.

Section Retry.

(** [A] is the state of the objects the retried function closes over and
    mutates (for the agent's lambdas, the agent itself). *)
Context {St A : Type}.

(** A Python function called with positional arguments. *)
Definition closure : Type :=
  list value -> A -> World St -> outcome * A * World St.

(** The [while attempt < self.max_attempts] loop.  [fuel] bounds the
    number of iterations; [None] means the bound was hit.  Leaving the loop
    through its condition falls off the end of the function, which returns
    [None] in Python: [Ok VNone]. *)
Fixpoint retry_loop (fuel : nat) (self : RetryManager) (func : closure)
  (args : list value) (attempt current_delay : Z) (a : A) (w : World St)
  : option (outcome * A * World St) :=
  if attempt <? max_attempts self then
    match fuel with
    | O => None
    | S fuel =>
        match func args a w with
        | (Ok result, a, w) => Some (Ok result, a, w)
        | (Err e, a, w) =>
            if isinstance e TransientError then
              let attempt := attempt + 1 in
              if max_attempts self <=? attempt then
                Some (Err e, a, w)
              else
                match time_sleep current_delay w with
                | inl sleep_error => Some (Err sleep_error, a, w)
                | inr w =>
                    let current_delay := current_delay * backoff_multiplier self in
                    retry_loop fuel self func args attempt current_delay a w
                end
            else if isinstance e PermanentError then
              Some (Err e, a, w)
            else
              Some (Err e, a, w)
        end
    end
  else Some (Ok VNone, a, w).

(** Every iteration but the last raises [attempt] by one, so
    [max_attempts] iterations are enough. *)
Definition execute_with_retry (self : RetryManager) (func : closure)
  (service_name : string) (args : list value) (a : A) (w : World St)
  : option (outcome * A * World St) :=
  let attempt := 0 in
  let current_delay := initial_delay self in
  retry_loop (Z.to_nat (max_attempts self)) self func args
             attempt current_delay a w.

End Retry.

(** The dict returned by [get_retry_info]. *)
Record RetryInfo : Type := mk_retry_info {
  info_initial_delay : Z;
  info_backoff_multiplier : Z;
  info_max_attempts : Z
}.

Definition get_retry_info (self : RetryManager) : RetryInfo :=
  mk_retry_info (initial_delay self) (backoff_multiplier self)
                (max_attempts self).

(** A function object used directly as the retried function: it closes
    over nothing. *)
Definition plain {St : Type} (f : callable St) : @closure St unit :=
  fun args _ w => let (r, w) := invoke f args w in (r, tt, w).

End retry_manager.

(* ================================================================== *)
(** * call_agent.py *)

Module call_agent.

Import exceptions runtime circuit_breaker retry_manager logger alerts.

Local Open Scope string_scope.
Local Open Scope Z_scope.

(** The attributes of a [CallAgent].  Each service object is represented
    by the behaviour of the one method the agent calls on it.  The logger
    and the alert system own one file each, both kept in the [World]. *)
Record CallAgent (St : Type) : Type := mk_call_agent {
  stt_service : behaviour St;
  llm_service : behaviour St;
  tts_service : behaviour St;
  retry_manager : RetryManager;
  stt_breaker : CircuitBreaker;
  llm_breaker : CircuitBreaker;
  tts_breaker : CircuitBreaker
}.

Arguments mk_call_agent {St} _ _ _ _ _ _ _.
Arguments stt_service {St} _.
Arguments llm_service {St} _.
Arguments tts_service {St} _.
Arguments retry_manager {St} _.
Arguments stt_breaker {St} _.
Arguments llm_breaker {St} _.
Arguments tts_breaker {St} _.

Section Agent.

Context {St : Type}.

Definition __init__ (stt_service llm_service tts_service : behaviour St)
  : CallAgent St :=
  mk_call_agent stt_service llm_service tts_service
    (retry_manager.__init__ 5 2 3)
    (circuit_breaker.__init__ 3 60 "STT")
    (circuit_breaker.__init__ 3 60 "LLM")
    (circuit_breaker.__init__ 3 60 "TTS").

(** Attribute assignments. *)
Definition set_stt_breaker (b : CircuitBreaker) (self : CallAgent St) : CallAgent St :=
  mk_call_agent (stt_service self) (llm_service self) (tts_service self)
    (retry_manager self) b (llm_breaker self) (tts_breaker self).

Definition set_llm_breaker (b : CircuitBreaker) (self : CallAgent St) : CallAgent St :=
  mk_call_agent (stt_service self) (llm_service self) (tts_service self)
    (retry_manager self) (stt_breaker self) b (tts_breaker self).

Definition set_tts_breaker (b : CircuitBreaker) (self : CallAgent St) : CallAgent St :=
  mk_call_agent (stt_service self) (llm_service self) (tts_service self)
    (retry_manager self) (stt_breaker self) (llm_breaker self) b.

(** The bound methods handed to the breakers. *)
Definition transcribe (self : CallAgent St) : callable St :=
  mk_callable "stt_service.transcribe" (stt_service self).

Definition generate_response (self : CallAgent St) : callable St :=
  mk_callable "llm_service.generate_response" (llm_service self).

Definition synthesize (self : CallAgent St) : callable St :=
  mk_callable "tts_service.synthesize" (tts_service self).

(** [lambda: self.stt_breaker.call(self.stt_service.transcribe, audio_input)] *)
Definition stt_lambda (audio_input : value) : @closure St (CallAgent St) :=
  fun _ self w =>
    let '(r, b, w) := call (stt_breaker self) (transcribe self) [audio_input] w in
    (r, set_stt_breaker b self, w).

(** [lambda: self.llm_breaker.call(self.llm_service.generate_response, text)] *)
Definition llm_lambda (text : value) : @closure St (CallAgent St) :=
  fun _ self w =>
    let '(r, b, w) := call (llm_breaker self) (generate_response self) [text] w in
    (r, set_llm_breaker b self, w).

(** [lambda: self.tts_breaker.call(self.tts_service.synthesize, text)] *)
Definition tts_lambda (text : value) : @closure St (CallAgent St) :=
  fun _ self w =>
    let '(r, b, w) := call (tts_breaker self) (synthesize self) [text] w in
    (r, set_tts_breaker b self, w).

Definition _call_stt_service (self : CallAgent St) (audio_input : value)
  (w : World St) : option (outcome * CallAgent St * World St) :=
  match execute_with_retry (retry_manager self) (stt_lambda audio_input)
                           "STT" [] self w with
  | None => None
  | Some (Ok result, self, w) => Some (Ok result, self, w)
  | Some (Err e, self, w) =>
      if isinstance e TransientError then
        let w := log_error "STT" "TransientError" (message e) 0
                   (snap_state (get_state (stt_breaker self))) None w in
        let w := send_alert "MEDIUM" "STT"
                   ("Transient error: " ++ message e) None w in
        Some (Err e, self, w)
      else if isinstance e PermanentError then
        let w := log_error "STT" "PermanentError" (message e) 0
                   (snap_state (get_state (stt_breaker self))) None w in
        let w := send_alert "HIGH" "STT"
                   ("Permanent error: " ++ message e) None w in
        Some (Err e, self, w)
      else Some (Err e, self, w)
  end.

Definition _call_llm_service (self : CallAgent St) (text : value)
  (w : World St) : option (outcome * CallAgent St * World St) :=
  match execute_with_retry (retry_manager self) (llm_lambda text)
                           "LLM" [] self w with
  | None => None
  | Some (Ok result, self, w) => Some (Ok result, self, w)
  | Some (Err e, self, w) =>
      if isinstance e TransientError then
        let w := log_error "LLM" "TransientError" (message e) 0
                   (snap_state (get_state (llm_breaker self))) None w in
        let w := send_alert "MEDIUM" "LLM"
                   ("Transient error: " ++ message e) None w in
        Some (Err e, self, w)
      else if isinstance e PermanentError then
        let w := log_error "LLM" "PermanentError" (message e) 0
                   (snap_state (get_state (llm_breaker self))) None w in
        let w := send_alert "HIGH" "LLM"
                   ("Permanent error: " ++ message e) None w in
        Some (Err e, self, w)
      else Some (Err e, self, w)
  end.

Definition _call_tts_service (self : CallAgent St) (text : value)
  (w : World St) : option (outcome * CallAgent St * World St) :=
  match execute_with_retry (retry_manager self) (tts_lambda text)
                           "TTS" [] self w with
  | None => None
  | Some (Ok result, self, w) => Some (Ok result, self, w)
  | Some (Err e, self, w) =>
      if isinstance e TransientError then
        let w := log_error "TTS" "TransientError" (message e) 0
                   (snap_state (get_state (tts_breaker self))) None w in
        let w := send_alert "MEDIUM" "TTS"
                   ("Transient error: " ++ message e) None w in
        Some (Err e, self, w)
      else if isinstance e PermanentError then
        let w := log_error "TTS" "PermanentError" (message e) 0
                   (snap_state (get_state (tts_breaker self))) None w in
        let w := send_alert "HIGH" "TTS"
                   ("Permanent error: " ++ message e) None w in
        Some (Err e, self, w)
      else Some (Err e, self, w)
  end.

(** The body of the [try] statement of [process_call]: the three steps in
    order; an exception raised by a step leaves the block at once. *)
Definition process_call_try (self : CallAgent St) (audio_input : value)
  (w : World St) : option (outcome * CallAgent St * World St) :=
  match _call_stt_service self audio_input w with
  | None => None
  | Some (Err e, self, w) => Some (Err e, self, w)
  | Some (Ok text, self, w) =>
      match _call_llm_service self text w with
      | None => None
      | Some (Err e, self, w) => Some (Err e, self, w)
      | Some (Ok response, self, w) =>
          match _call_tts_service self response w with
          | None => None
          | Some (Err e, self, w) => Some (Err e, self, w)
          | Some (Ok audio_output, self, w) => Some (Ok audio_output, self, w)
          end
      end
  end.

(** [process_call]: the result of the last step, or, when the handler
    [except Exception] ran (it only prints), the implicit [None]. *)
Definition process_call (self : CallAgent St) (audio_input : value)
  (w : World St) : option (value * CallAgent St * World St) :=
  match process_call_try self audio_input w with
  | None => None
  | Some (Ok audio_output, self, w) => Some (audio_output, self, w)
  | Some (Err e, self, w) => Some (VNone, self, w)
  end.

(** The dict returned by [get_system_status]. *)
Record SystemStatus : Type := mk_system_status {
  stt_circuit : Snapshot;
  llm_circuit : Snapshot;
  tts_circuit : Snapshot;
  retry_config : RetryInfo
}.

Definition get_system_status (self : CallAgent St) : SystemStatus :=
  mk_system_status (get_state (stt_breaker self))
                   (get_state (llm_breaker self))
                   (get_state (tts_breaker self))
                   (get_retry_info (retry_manager self)).

End Agent.

End call_agent.

(* ================================================================== *)
(** * Observing runs *)

Module observe.

Import exceptions runtime circuit_breaker retry_manager logger alerts
       call_agent.

(** The call raised. *)
Definition failed (r : outcome) : Prop :=
  match r with
  | Ok _ => False
  | Err _ => True
  end.

Definition is_invoke (ev : event) : bool :=
  match ev with
  | EvInvoke _ _ => true
  | EvSleep _ => false
  end.

(** How many invocations a stretch of the trace holds. *)
Definition invocations (evs : list event) : nat :=
  length (filter is_invoke evs).

(** The suspensions of a stretch of the trace, in order. *)
Fixpoint delays (evs : list event) : list Z :=
  match evs with
  | [] => []
  | EvSleep d :: evs => d :: delays evs
  | EvInvoke _ _ :: evs => delays evs
  end.

(** The invocations of the callable called [name]. *)
Definition invocations_of (name : string) (evs : list event) : nat :=
  length (filter (fun ev => match ev with
                            | EvInvoke n _ => String.eqb n name
                            | EvSleep _ => false
                            end) evs).

(** One call after the other through the same breaker. *)
Fixpoint call_each {St : Type} (self : CircuitBreaker)
  (calls : list (callable St * list value)) (w : World St)
  : list outcome * CircuitBreaker * World St :=
  match calls with
  | [] => ([], self, w)
  | (func, args) :: calls =>
      let '(r, self, w) := call self func args w in
      let '(rs, self, w) := call_each self calls w in
      (r :: rs, self, w)
  end.

(** The event is a suspension or an invocation of the callable [name]. *)
Definition only_invokes (name : string) (ev : event) : Prop :=
  match ev with
  | EvInvoke n _ => n = name
  | EvSleep _ => True
  end.

Section Reports.

Context {St : Type}.

(** From [w] to [w'] the two files were left alone and the trace grew by
    events that satisfy [P]. *)
Definition quiet_on (P : event -> Prop) (w w' : World St) : Prop :=
  error_log w' = error_log w /\
  alerts_file w' = alerts_file w /\
  exists evs, trace w' = trace w ++ evs /\ Forall P evs.

(** From [w] to [w'] exactly one entry was appended to the error log and
    exactly one alert to the alerts file, for the service [name], of the
    given error type and severity. *)
Definition one_report (name error_type severity : string) (w w' : World St)
  : Prop :=
  exists entry al,
    error_log w' = error_log w ++ [entry] /\
    alerts_file w' = alerts_file w ++ [al] /\
    log_service_name entry = name /\
    log_error_type entry = error_type /\
    alert_service_name al = name /\
    alert_severity al = severity.

Definition unreported (w w' : World St) : Prop :=
  error_log w' = error_log w /\ alerts_file w' = alerts_file w.

(** What a stage leaves in the two files, by the way it ended. *)
Definition reported (name : string) (r : outcome) (w w' : World St) : Prop :=
  match r with
  | Ok _ => unreported w w'
  | Err e =>
      if isinstance e TransientError then
        one_report name "TransientError" "MEDIUM" w w'
      else if isinstance e PermanentError then
        one_report name "PermanentError" "HIGH" w w'
      else unreported w w'
  end.

(** The common shape of [_call_stt_service], [_call_llm_service] and
    [_call_tts_service]: they differ in the lambda, the service name and
    the breaker whose state is logged. *)
Definition stage_call (lam : @closure St (CallAgent St)) (name : string)
  (breaker : CallAgent St -> CircuitBreaker) (self : CallAgent St)
  (w : World St) : option (outcome * CallAgent St * World St) :=
  match execute_with_retry (retry_manager self) lam name [] self w with
  | None => None
  | Some (Ok result, self, w) => Some (Ok result, self, w)
  | Some (Err e, self, w) =>
      if isinstance e TransientError then
        let w := log_error name "TransientError" (message e) 0
                   (snap_state (get_state (breaker self))) None w in
        let w := send_alert "MEDIUM" name
                   ("Transient error: " ++ message e)%string None w in
        Some (Err e, self, w)
      else if isinstance e PermanentError then
        let w := log_error name "PermanentError" (message e) 0
                   (snap_state (get_state (breaker self))) None w in
        let w := send_alert "HIGH" name
                   ("Permanent error: " ++ message e)%string None w in
        Some (Err e, self, w)
      else Some (Err e, self, w)
  end.

(** How a stage treats a call refused by its breaker.  [lam] is the
    stage's lambda, [method] the stage method, [breaker] the breaker the
    lambda goes through.
    - While the breaker refuses, every iteration of the retry loop that
      calls the lambda returns the breaker-open error at once, agent and
      world untouched; so do [execute_with_retry] and the stage method.
    - Whenever [execute_with_retry] ends with a plain [Exception], at
      whatever iteration, the stage method returns what it left. *)
Definition passes_rejection (lam : @closure St (CallAgent St)) (name : string)
  (method : CallAgent St -> World St
            -> option (outcome * CallAgent St * World St))
  (breaker : CallAgent St -> CircuitBreaker) (self : CallAgent St)
  (w : World St) : Prop :=
  (forall t,
      state (breaker self) = OPEN ->
      last_failure_time (breaker self) = Some t ->
      time_time w - t < timeout (breaker self) ->
      (forall fuel attempt current_delay,
          attempt < max_attempts (retry_manager self) ->
          retry_loop (S fuel) (retry_manager self) lam [] attempt
                     current_delay self w
          = Some (Err (open_error (breaker self)), self, w)) /\
      execute_with_retry (retry_manager self) lam name [] self w
      = Some (Err (open_error (breaker self)), self, w) /\
      method self w = Some (Err (open_error (breaker self)), self, w)) /\
  (forall e self1 w1,
      execute_with_retry (retry_manager self) lam name [] self w
      = Some (Err e, self1, w1) ->
      cls e = Exception ->
      method self w = Some (Err e, self1, w1)).

End Reports.

End observe.

(* ================================================================== *)
(** * Concrete collaborators

    Service behaviours and a starting world over which the theorems are
    exercised.  The collaborators keep no state of their own ([unit]);
    every call takes one time unit. *)

Module scenarios.

Import exceptions runtime circuit_breaker retry_manager call_agent.

Local Open Scope string_scope.
Local Open Scope Z_scope.

Definition tick (e : Env unit) : Env unit := mk_env (clock e + 1) (ext e).

(** Raises [TimeoutError] on every call. *)
Definition timing_out : behaviour unit :=
  fun _ e => (Err (mk_exn TimeoutError "service timeout" (Some "STT")), tick e).

(** Raises [AuthenticationError] on every call. *)
Definition denied : behaviour unit :=
  fun _ e =>
    (Err (mk_exn AuthenticationError "authentication failed" (Some "STT")),
     tick e).

(** Raises a builtin [KeyError] on every call. *)
Definition crashing : behaviour unit :=
  fun _ e => (Err (new (Builtin "KeyError") "missing"), tick e).

(** Returns a fixed payload on every call. *)
Definition answering (payload : string) : behaviour unit :=
  fun _ e => (Ok (VStr payload), tick e).

Definition w0 : World unit := mk_world (mk_env 0 tt) [] [] [].

(** A world whose clock reads [t]. *)
Definition at_time (t : Z) : World unit := mk_world (mk_env t tt) [] [] [].

(** A breaker that opened on its third failure, at time 10. *)
Definition tripped : CircuitBreaker :=
  mk_breaker 3 60 "STT" OPEN 3 (Some 10) 0.

Definition audio : value := VStr "<simulated_audio_call_1>".

(** Agents over services that all answer, or of which one is down. *)
Definition agent_ok : CallAgent unit :=
  call_agent.__init__ (answering "text") (answering "reply") (answering "speech").

Definition agent_stt_down : CallAgent unit :=
  call_agent.__init__ timing_out (answering "reply") (answering "speech").

Definition agent_stt_denied : CallAgent unit :=
  call_agent.__init__ denied (answering "reply") (answering "speech").

Definition agent_llm_down : CallAgent unit :=
  call_agent.__init__ (answering "text") timing_out (answering "speech").

(** A service that counts its calls: access is denied on the first two,
    later ones time out. *)
Definition degrading : behaviour nat :=
  fun _ e =>
    let e' := mk_env (clock e + 1) (S (ext e)) in
    if Nat.ltb (ext e) 2 then
      (Err (mk_exn AuthenticationError "authentication failed" (Some "STT")), e')
    else
      (Err (mk_exn TimeoutError "service timeout" (Some "STT")), e').

Definition agent_degrading : CallAgent nat :=
  call_agent.__init__ degrading
    (fun _ e => (Ok (VStr "reply"), e)) (fun _ e => (Ok (VStr "speech"), e)).

Definition start : World nat := mk_world (mk_env 0 0%nat) [] [] [].

(** [agent_ok] after its STT breaker opened at time 10. *)
Definition agent_stt_open : CallAgent unit := set_stt_breaker tripped agent_ok.

Definition agent_llm_open : CallAgent unit := set_llm_breaker tripped agent_ok.

Definition agent_tts_open : CallAgent unit := set_tts_breaker tripped agent_ok.

End scenarios.

(* ================================================================== *)
(** * Shapes of runs and states *)

Module shapes.

Import exceptions runtime circuit_breaker retry_manager logger alerts
       call_agent.

Local Open Scope Z_scope.

(** What [k] attempts of a retry run leave in the trace: the invocations,
    with a suspension between each two that grows by [multiplier]. *)
Fixpoint backoff_trace (name : string) (args : list value)
  (delay multiplier : Z) (k : nat) : list event :=
  match k with
  | O => []
  | S k' =>
      EvInvoke name args ::
      match k' with
      | O => []
      | S _ =>
          EvSleep delay ::
          backoff_trace name args (delay * multiplier) multiplier k'
      end
  end.

(** The retried function with a counter of its calls beside its state. *)
Definition counted {St A : Type} (func : @closure St A) : @closure St (A * nat) :=
  fun args an w =>
    let '(r, a, w) := func args (fst an) w in
    (r, (a, S (snd an)), w).

(** A breaker as it stands between two operations. *)
Definition settled (b : CircuitBreaker) : Prop :=
  1 <= failure_threshold b /\
  state b <> HALF_OPEN /\
  0 <= failure_count b /\
  success_count b = 0 /\
  (state b = OPEN -> last_failure_time b <> None) /\
  (state b = CLOSED -> failure_count b < failure_threshold b).

Definition same_config (b b' : CircuitBreaker) : Prop :=
  failure_threshold b' = failure_threshold b /\
  timeout b' = timeout b /\
  circuit_breaker.service_name b' = circuit_breaker.service_name b.

(** What can be done to a breaker from outside. *)
Inductive breaker_op (St : Type) : Type :=
| DoCall (func : callable St) (args : list value)
| DoReset.

Arguments DoCall {St} _ _.
Arguments DoReset {St}.

Fixpoint run_ops {St : Type} (b : CircuitBreaker) (ops : list (breaker_op St))
  (w : World St) : CircuitBreaker * World St :=
  match ops with
  | [] => (b, w)
  | DoCall func args :: ops =>
      let '(_, b, w) := call b func args w in run_ops b ops w
  | DoReset :: ops => run_ops (reset b) ops w
  end.

Section AgentShapes.

Context {St : Type}.

Definition agent_settled (self : CallAgent St) : Prop :=
  settled (stt_breaker self) /\
  settled (llm_breaker self) /\
  settled (tts_breaker self).

(** Nothing but the fields of the three breakers differs. *)
Definition same_setup (self self' : CallAgent St) : Prop :=
  stt_service self' = stt_service self /\
  llm_service self' = llm_service self /\
  tts_service self' = tts_service self /\
  retry_manager self' = retry_manager self /\
  same_config (stt_breaker self) (stt_breaker self') /\
  same_config (llm_breaker self) (llm_breaker self') /\
  same_config (tts_breaker self) (tts_breaker self').

(** From [self] to [self'] only the breaker [mine] may have changed, in
    its state fields only, and it is still settled if it was. *)
Definition touches_only (mine other1 other2 : CallAgent St -> CircuitBreaker)
  (self self' : CallAgent St) : Prop :=
  stt_service self' = stt_service self /\
  llm_service self' = llm_service self /\
  tts_service self' = tts_service self /\
  retry_manager self' = retry_manager self /\
  other1 self' = other1 self /\
  other2 self' = other2 self /\
  same_config (mine self) (mine self') /\
  (settled (mine self) -> settled (mine self')).

(** From [w] to [w'] the failure [e] of the stage [name] was put on file:
    the newest log entry and one more active alert describe it. *)
Definition failure_on_file (name : string) (e : exn) (w w' : World St) : Prop :=
  exists entry al,
    get_recent_logs 1 w' = [entry] /\
    get_active_alerts w' = get_active_alerts w ++ [al] /\
    log_service_name entry = name /\
    alert_service_name al = name /\
    log_error_message entry = message e /\
    log_error_type entry
    = (if isinstance e TransientError
       then "TransientError" else "PermanentError")%string /\
    alert_severity al
    = (if isinstance e TransientError then "MEDIUM" else "HIGH")%string /\
    alert_error_message al
    = ((if isinstance e TransientError
        then "Transient error: " else "Permanent error: ") ++ message e)%string /\
    log_retry_count entry = 0 /\
    (log_circuit_state entry = "CLOSED"%string \/
     log_circuit_state entry = "OPEN"%string) /\
    log_timestamp entry = time_time w' /\
    alert_timestamp al = time_time w'.

(** One pipeline invocation after the other on the same agent. *)
Fixpoint process_calls (self : CallAgent St) (inputs : list value)
  (w : World St) : option (list value * CallAgent St * World St) :=
  match inputs with
  | [] => Some ([], self, w)
  | audio_input :: inputs =>
      match process_call self audio_input w with
      | None => None
      | Some (v, self, w) =>
          match process_calls self inputs w with
          | None => None
          | Some (vs, self, w) => Some (v :: vs, self, w)
          end
      end
  end.

End AgentShapes.

End shapes.

(* ================================================================== *)
(** * More collaborators *)

Module cases.

Import exceptions runtime circuit_breaker retry_manager call_agent.

Local Open Scope string_scope.
Local Open Scope Z_scope.

(** A service that counts its calls: the first times out, later ones
    answer. *)
Definition recovering : behaviour nat :=
  fun _ e =>
    let e' := mk_env (clock e + 1) (S (ext e)) in
    match ext e with
    | O => (Err (mk_exn TimeoutError "service timeout" (Some "STT")), e')
    | S _ => (Ok (VStr "text"), e')
    end.

(** A retry policy with a negative initial delay. *)
Definition hasty : RetryManager := retry_manager.__init__ (-1) 2 3.

(** An agent whose speech-to-text service is [recovering]. *)
Definition agent_recovering : CallAgent nat :=
  call_agent.__init__ recovering
    (fun _ e => (Ok (VStr "reply"), e)) (fun _ e => (Ok (VStr "speech"), e)).

End cases.

(* ================================================================== *)
(** * Theorems *)

Import exceptions runtime circuit_breaker retry_manager logger alerts
       call_agent observe scenarios shapes cases.

(** ** The error taxonomy *)

Ltac settle_status_tests :=
  repeat match goal with
         | |- context [Z.eqb ?a ?b] =>
             destruct (Z.eqb_spec a b); try lia; simpl
         | |- context [Z.leb ?a ?b] =>
             destruct (Z.leb_spec a b); try lia; simpl
         | |- context [Z.ltb ?a ?b] =>
             destruct (Z.ltb_spec a b); try lia; simpl
         end.

(** C6: for every integer status code, [classify_error] yields
    ServiceUnavailable for 503, RateLimited for 429, Timeout for 408 and
    504, AuthenticationFailed for 401 and 403, NotFound for 404,
    InvalidPayload for 400, the generic Transient kind for every other
    code in [500, 600), and the generic Permanent kind for every remaining
    code.  Being a function of its two arguments into [exn], it is total
    and has no effect on any state. *)
Theorem classify_error_kind :
  forall (status_code : Z) (error_message : string),
    let kind := cls (classify_error status_code error_message) in
    (status_code = 503 -> kind = ServiceUnavailableError) /\
    (status_code = 429 -> kind = RateLimitError) /\
    (status_code = 408 \/ status_code = 504 -> kind = TimeoutError) /\
    (status_code = 401 \/ status_code = 403 -> kind = AuthenticationError) /\
    (status_code = 404 -> kind = ResourceNotFoundError) /\
    (status_code = 400 -> kind = InvalidPayloadError) /\
    (500 <= status_code < 600 -> status_code <> 503 -> status_code <> 504 ->
     kind = TransientError) /\
    (~ 500 <= status_code < 600 ->
     ~ In status_code [429; 408; 401; 403; 404; 400] ->
     kind = PermanentError).
Proof.
  intros status_code error_message kind; subst kind.
  repeat split; intros; unfold classify_error;
    try match goal with H : _ \/ _ |- _ => destruct H end;
    try subst status_code; try reflexivity.
  - settle_status_tests; reflexivity.
  - cbn [In] in *. settle_status_tests; try reflexivity; tauto.
Qed.

(** ** The circuit breaker *)

Section BreakerFacts.

Context {St : Type}.

Implicit Types (self : CircuitBreaker) (func : callable St)
         (args : list value) (w : World St).

Lemma invoke_trace : forall func args w r w1,
  invoke func args w = (r, w1) ->
  trace w1 = trace w ++ [EvInvoke (c_name func) args] /\
  error_log w1 = error_log w /\ alerts_file w1 = alerts_file w.
Proof.
  intros func args w r w1. unfold invoke.
  destruct (c_body func args (env w)) as [r0 e']; intros H.
  inversion H; subst; simpl; auto.
Qed.

Lemma gate_not_open : forall self w,
  state self <> OPEN -> gate self w = inr self.
Proof.
  intros self w H. unfold gate. destruct (state self); simpl; congruence.
Qed.

Lemma gate_open_waiting : forall self w t,
  state self = OPEN -> last_failure_time self = Some t ->
  time_time w - t < timeout self ->
  gate self w = inl (open_error self).
Proof.
  intros self w t Hs Ht Hlt. unfold gate, _should_attempt_reset.
  rewrite Hs, Ht; simpl.
  destruct (Z.leb_spec (timeout self) (time_time w - t)); [lia | reflexivity].
Qed.

Lemma gate_open_elapsed : forall self w t,
  state self = OPEN -> last_failure_time self = Some t ->
  timeout self <= time_time w - t ->
  gate self w = inr (set_state HALF_OPEN self).
Proof.
  intros self w t Hs Ht Hle. unfold gate, _should_attempt_reset.
  rewrite Hs, Ht; simpl.
  destruct (Z.leb_spec (timeout self) (time_time w - t)); [reflexivity | lia].
Qed.

(** A failure seen by a CLOSED breaker: the count goes up by one, the
    time is noted, and the circuit opens exactly when the count has
    reached the threshold. *)
Lemma on_failure_closed : forall self w,
  state self = CLOSED ->
  let self' := _on_failure self w in
  failure_count self' = failure_count self + 1 /\
  last_failure_time self' = Some (time_time w) /\
  failure_threshold self' = failure_threshold self /\
  state self' = (if failure_threshold self <=? failure_count self + 1
                 then OPEN else CLOSED).
Proof.
  intros self w Hs. unfold _on_failure; simpl. rewrite Hs; simpl.
  destruct (failure_threshold self <=? failure_count self + 1); simpl; auto.
Qed.

Lemma call_closed_failure : forall self func args w e self1 w1,
  state self = CLOSED ->
  call self func args w = (Err e, self1, w1) ->
  self1 = _on_failure self w1.
Proof.
  intros self func args w e self1 w1 Hs. unfold call.
  rewrite gate_not_open by congruence. unfold attempt.
  destruct (invoke func args w) as [[v | e0] w0]; intros H; inversion H; auto.
Qed.

(** The run of failures, counted from any number of failures already
    seen. *)
Lemma failures_while_closed : forall (calls : list (callable St * list value))
  self w outs self' w',
  state self = CLOSED ->
  call_each self calls w = (outs, self', w') ->
  Forall failed outs ->
  let n := failure_count self + Z.of_nat (length calls) in
  (n < failure_threshold self ->
   state self' = CLOSED /\ failure_count self' = n) /\
  (n = failure_threshold self -> calls <> [] ->
   state self' = OPEN /\ last_failure_time self' = Some (time_time w')).
Proof.
  induction calls as [| [func args] calls IH];
    intros self w outs self' w' Hs Hrun Hfail n; subst n.
  - simpl in Hrun. inversion Hrun; subst. cbn [length Z.of_nat].
    rewrite Z.add_0_r. split; [auto | congruence].
  - cbn [call_each] in Hrun.
    destruct (call self func args w) as [[r self1] w1] eqn:Hcall.
    destruct (call_each self1 calls w1) as [[rs self2] w2] eqn:Hrest.
    inversion Hrun; subst outs self' w'; clear Hrun.
    inversion Hfail as [| ? ? Hr Hrs]; subst.
    destruct r as [v | e]; [contradiction |].
    pose proof (call_closed_failure _ _ _ _ _ _ _ Hs Hcall) as Hself1.
    pose proof (on_failure_closed self w1 Hs) as (Hc & Hl & Ht & Hst).
    rewrite <- Hself1 in Hc, Hl, Ht, Hst.
    replace (failure_count self + Z.of_nat (length ((func, args) :: calls)))
      with (failure_count self1 + Z.of_nat (length calls))
      by (rewrite Hc; cbn [length]; lia).
    destruct (Z.leb_spec (failure_threshold self) (failure_count self + 1))
      as [Hge | Hlt].
    + (* this failure opens the circuit *)
      split; [lia |].
      intros Hn _. assert (calls = []) as -> by
          (destruct calls; [reflexivity | cbn [length] in Hn; lia]).
      simpl in Hrest. inversion Hrest; subst. auto.
    + (* the circuit stays closed *)
      destruct (IH self1 w1 rs self2 w2 Hst Hrest Hrs) as (IHlt & IHeq).
      rewrite <- Ht. split; [exact IHlt |].
      intros Hn _. apply IHeq; [exact Hn |].
      intros ->. cbn [length Z.of_nat] in Hn. lia.
Qed.

(** C1: a breaker with threshold [T >= 1] that is CLOSED with no failure
    counted stays CLOSED through fewer than [T] consecutive failing calls,
    and the [T]-th consecutive failing call opens it and leaves the time of
    that failure in [last_failure_time]. *)
Theorem breaker_opens_at_threshold :
  forall (T : Z) self (calls : list (callable St * list value)) w
         outs self' w',
    1 <= T ->
    failure_threshold self = T ->
    state self = CLOSED ->
    failure_count self = 0 ->
    call_each self calls w = (outs, self', w') ->
    Forall failed outs ->
    (Z.of_nat (length calls) < T -> state self' = CLOSED) /\
    (Z.of_nat (length calls) = T ->
     state self' = OPEN /\ last_failure_time self' = Some (time_time w')).
Proof.
  intros T self calls w outs self' w' HT Hthr Hs Hc Hrun Hfail.
  destruct (failures_while_closed calls self w outs self' w' Hs Hrun Hfail)
    as (Hlt & Heq).
  rewrite Hc, Hthr in Hlt, Heq. simpl in Hlt, Heq.
  split.
  - intros Hn. apply Hlt. exact Hn.
  - intros Hn. apply Heq; [exact Hn |].
    intros ->. cbn [length Z.of_nat] in Hn. lia.
Qed.

(** C2: while a breaker is OPEN and less than [timeout] has passed since
    the recorded failure, [call] raises the breaker-open error, a plain
    [Exception], and the world is left as it was: the wrapped function is
    not invoked. *)
Theorem open_breaker_rejects_without_invoking :
  forall self func args w t,
    state self = OPEN ->
    last_failure_time self = Some t ->
    time_time w - t < timeout self ->
    exists e self' w',
      call self func args w = (Err e, self', w') /\
      e = open_error self /\ cls e = Exception /\
      w' = w /\ invocations (trace w') = invocations (trace w).
Proof.
  intros self func args w t Hs Ht Hlt.
  exists (open_error self), self, w. unfold call.
  rewrite (gate_open_waiting self w t Hs Ht Hlt). auto.
Qed.

(** C9: a call refused by an OPEN breaker whose timeout has not elapsed
    leaves the breaker record as it was: the state is still OPEN, the
    failure count and the time of the last failure are unchanged. *)
Theorem rejection_leaves_breaker_unchanged :
  forall self func args w t,
    state self = OPEN ->
    last_failure_time self = Some t ->
    time_time w - t < timeout self ->
    let self' := snd (fst (call self func args w)) in
    self' = self /\
    state self' = OPEN /\
    failure_count self' = failure_count self /\
    last_failure_time self' = Some t.
Proof.
  intros self func args w t Hs Ht Hlt. unfold call.
  rewrite (gate_open_waiting self w t Hs Ht Hlt). simpl. auto.
Qed.

(** C3: once [timeout] has passed since the recorded failure, a call to an
    OPEN breaker moves it to HALF_OPEN and invokes the wrapped function
    once.  If the function returns, the breaker ends CLOSED with failure
    count 0; if it raises, the breaker ends OPEN again with
    [last_failure_time] set to the time of that failure.  Either way the
    function's outcome is the outcome of the call. *)
Theorem open_breaker_probes_after_timeout :
  forall self func args w t,
    state self = OPEN ->
    last_failure_time self = Some t ->
    timeout self <= time_time w - t ->
    exists half r self' w',
      gate self w = inr half /\ state half = HALF_OPEN /\
      call self func args w = attempt half func args w /\
      invoke func args w = (r, w') /\
      call self func args w = (r, self', w') /\
      trace w' = trace w ++ [EvInvoke (c_name func) args] /\
      match r with
      | Ok _ => state self' = CLOSED /\ failure_count self' = 0
      | Err _ =>
          state self' = OPEN /\ last_failure_time self' = Some (time_time w')
      end.
Proof.
  intros self func args w t Hs Ht Hle.
  destruct (invoke func args w) as [r w1] eqn:Hinv.
  exists (set_state HALF_OPEN self), r.
  assert (Hcall : call self func args w
                  = attempt (set_state HALF_OPEN self) func args w).
  { unfold call. rewrite (gate_open_elapsed self w t Hs Ht Hle). reflexivity. }
  rewrite Hcall, (gate_open_elapsed self w t Hs Ht Hle).
  unfold attempt. rewrite Hinv.
  destruct (invoke_trace _ _ _ _ _ Hinv) as (Htr & _).
  destruct r as [v | e].
  - exists (_on_success (set_state HALF_OPEN self)), w1.
    repeat split; auto.
  - exists (_on_failure (set_state HALF_OPEN self) w1), w1.
    repeat split; auto.
Qed.

End BreakerFacts.

(** The breaker theorems at work: threshold 2, two timeouts in a row. *)
Lemma breaker_opens_at_threshold_witness :
  let self := circuit_breaker.__init__ 2 60 "STT" in
  let probe := mk_callable "probe" timing_out in
  let run := call_each self [(probe, []); (probe, [])] w0 in
  state (snd (fst run)) = OPEN /\
  last_failure_time (snd (fst run)) = Some (time_time (snd run)).
Proof.
  cbv zeta.
  refine (proj2 (breaker_opens_at_threshold 2
            (circuit_breaker.__init__ 2 60 "STT")
            [(mk_callable "probe" timing_out, []);
             (mk_callable "probe" timing_out, [])] w0
            _ _ _ _ _ _ _ eq_refl _) _).
  - lia.
  - reflexivity.
  - reflexivity.
  - reflexivity.
  - repeat constructor.
  - reflexivity.
Defined.

Lemma open_breaker_rejects_without_invoking_witness :
  exists e self' w',
    call tripped (mk_callable "probe" (answering "hello")) [] (at_time 20)
    = (Err e, self', w') /\
    e = open_error tripped /\ cls e = Exception /\
    w' = at_time 20 /\
    invocations (trace w') = invocations (trace (at_time 20)).
Proof.
  apply (open_breaker_rejects_without_invoking tripped
           (mk_callable "probe" (answering "hello")) [] (at_time 20) 10).
  - reflexivity.
  - reflexivity.
  - vm_compute. reflexivity.
Defined.

Lemma rejection_leaves_breaker_unchanged_witness :
  let self' :=
    snd (fst (call tripped (mk_callable "probe" timing_out) [] (at_time 69))) in
  self' = tripped /\
  state self' = OPEN /\
  failure_count self' = failure_count tripped /\
  last_failure_time self' = Some 10.
Proof.
  apply (rejection_leaves_breaker_unchanged tripped
           (mk_callable "probe" timing_out) [] (at_time 69) 10).
  - reflexivity.
  - reflexivity.
  - vm_compute. reflexivity.
Defined.

Lemma open_breaker_probes_after_timeout_witness :
  exists half r self' w',
    gate tripped (at_time 70) = inr half /\ state half = HALF_OPEN /\
    call tripped (mk_callable "probe" (answering "hello")) [] (at_time 70)
    = attempt half (mk_callable "probe" (answering "hello")) [] (at_time 70) /\
    invoke (mk_callable "probe" (answering "hello")) [] (at_time 70) = (r, w') /\
    call tripped (mk_callable "probe" (answering "hello")) [] (at_time 70)
    = (r, self', w') /\
    trace w' = trace (at_time 70) ++ [EvInvoke "probe" []] /\
    match r with
    | Ok _ => state self' = CLOSED /\ failure_count self' = 0
    | Err _ =>
        state self' = OPEN /\ last_failure_time self' = Some (time_time w')
    end.
Proof.
  apply (open_breaker_probes_after_timeout tripped
           (mk_callable "probe" (answering "hello")) [] (at_time 70) 10).
  - reflexivity.
  - reflexivity.
  - vm_compute. discriminate.
Defined.

(** ** The retry executor *)

Lemma invocations_app : forall xs ys,
  invocations (xs ++ ys) = (invocations xs + invocations ys)%nat.
Proof.
  intros xs ys. unfold invocations. rewrite filter_app, length_app. reflexivity.
Qed.

Lemma delays_app : forall xs ys, delays (xs ++ ys) = delays xs ++ delays ys.
Proof.
  induction xs as [| [n a | d] xs IH]; intros ys; simpl; rewrite ?IH; reflexivity.
Qed.

(** No class derives from both [TransientError] and [PermanentError]. *)
Lemma permanent_not_transient : forall e,
  isinstance e PermanentError = true -> isinstance e TransientError = false.
Proof.
  intros [c m s]. unfold isinstance, issubclass, mro; simpl.
  destruct c; simpl; intros H; congruence.
Qed.

Section RetryFacts.

Context {St : Type}.

Implicit Types (self : RetryManager) (w : World St) (args : list value).

Lemma time_sleep_inr : forall seconds w w1,
  time_sleep seconds w = inr w1 ->
  trace w1 = trace w ++ [EvSleep seconds] /\
  error_log w1 = error_log w /\ alerts_file w1 = alerts_file w /\
  time_time w1 = time_time w + seconds.
Proof.
  intros seconds w w1. unfold time_sleep.
  destruct (seconds <? 0); intros H; inversion H; subst; simpl; auto.
Qed.

(** The loop ends within the iterations [execute_with_retry] grants it. *)
Lemma retry_loop_total : forall {A : Type} fuel self (func : @closure St A)
  args attempt current_delay a w,
  (Z.to_nat (max_attempts self - attempt) <= fuel)%nat ->
  exists res, retry_loop fuel self func args attempt current_delay a w = Some res.
Proof.
  intros A fuel. induction fuel as [| fuel IH];
    intros self func args attempt current_delay a w Hfuel; simpl.
  - destruct (Z.ltb_spec attempt (max_attempts self)); [lia | eauto].
  - destruct (Z.ltb_spec attempt (max_attempts self)); [| eauto].
    destruct (func args a w) as [[[v | e] a1] w1]; [eauto |].
    destruct (isinstance e TransientError); [| destruct (isinstance e PermanentError); eauto].
    destruct (Z.leb_spec (max_attempts self) (attempt + 1)); [eauto |].
    destruct (time_sleep current_delay w1); [eauto |].
    apply IH. lia.
Qed.

Lemma execute_with_retry_total : forall {A : Type} self (func : @closure St A)
  service_name args a w,
  exists res, execute_with_retry self func service_name args a w = Some res.
Proof.
  intros. unfold execute_with_retry. apply retry_loop_total.
  rewrite Z.sub_0_r. lia.
Qed.

(** A failure that is not a [TransientError] leaves the loop at once. *)
Lemma retry_propagates_non_transient : forall {A : Type} self
  (func : @closure St A) service_name args a w e a1 w1,
  1 <= max_attempts self ->
  func args a w = (Err e, a1, w1) ->
  isinstance e TransientError = false ->
  execute_with_retry self func service_name args a w = Some (Err e, a1, w1).
Proof.
  intros A self func service_name args a w e a1 w1 Hmax Hf Hnt.
  unfold execute_with_retry.
  destruct (Z.to_nat (max_attempts self)) as [| fuel] eqn:Hfuel; [lia |].
  simpl. destruct (Z.ltb_spec 0 (max_attempts self)); [| lia].
  rewrite Hf, Hnt. destruct (isinstance e PermanentError); reflexivity.
Qed.

(** One iteration that ends in a [TransientError] with attempts left:
    sleep, lengthen the delay, go round again. *)
Lemma retry_loop_transient_again : forall {A : Type} fuel self
  (func : @closure St A) args attempt current_delay a w e a1 w1 w2,
  func args a w = (Err e, a1, w1) ->
  isinstance e TransientError = true ->
  attempt + 1 < max_attempts self ->
  time_sleep current_delay w1 = inr w2 ->
  retry_loop (S fuel) self func args attempt current_delay a w
  = retry_loop fuel self func args (attempt + 1)
               (current_delay * backoff_multiplier self) a1 w2.
Proof.
  intros A fuel self func args attempt current_delay a w e a1 w1 w2
         Hf Ht Hlt Hsl.
  simpl. destruct (Z.ltb_spec attempt (max_attempts self)); [| lia].
  rewrite Hf, Ht.
  destruct (Z.leb_spec (max_attempts self) (attempt + 1)); [lia |].
  rewrite Hsl. reflexivity.
Qed.

(** The iteration that uses up the last attempt: the exception is
    re-raised, with no sleep. *)
Lemma retry_loop_transient_last : forall {A : Type} fuel self
  (func : @closure St A) args attempt current_delay a w e a1 w1,
  func args a w = (Err e, a1, w1) ->
  isinstance e TransientError = true ->
  attempt < max_attempts self <= attempt + 1 ->
  retry_loop (S fuel) self func args attempt current_delay a w
  = Some (Err e, a1, w1).
Proof.
  intros A fuel self func args attempt current_delay a w e a1 w1 Hf Ht Hlt.
  simpl. destruct (Z.ltb_spec attempt (max_attempts self)); [| lia].
  rewrite Hf, Ht.
  destruct (Z.leb_spec (max_attempts self) (attempt + 1)); [| lia].
  reflexivity.
Qed.

Lemma plain_invoke : forall (f : callable St) args w,
  plain f args tt w = (fst (invoke f args w), tt, snd (invoke f args w)).
Proof.
  intros. unfold plain. destruct (invoke f args w); reflexivity.
Qed.

(** Invocations and suspensions of a run of the loop on a function
    object, whatever the function does. *)
Lemma retry_loop_bounds : forall fuel self (f : callable St) args attempt
  current_delay w,
  (Z.to_nat (max_attempts self - attempt) <= fuel)%nat ->
  exists r w' evs,
    retry_loop fuel self (plain f) args attempt current_delay tt w
    = Some (r, tt, w') /\
    trace w' = trace w ++ evs /\
    Z.of_nat (invocations evs) <= Z.max 0 (max_attempts self - attempt) /\
    Z.of_nat (length (delays evs)) <= Z.max 0 (max_attempts self - attempt - 1).
Proof.
  induction fuel as [| fuel IH];
    intros self f args attempt current_delay w Hfuel; simpl.
  - destruct (Z.ltb_spec attempt (max_attempts self)); [lia |].
    exists (Ok VNone), w, []. rewrite app_nil_r. simpl. repeat split; lia.
  - destruct (Z.ltb_spec attempt (max_attempts self)) as [Hlt | Hge].
    2:{ exists (Ok VNone), w, []. rewrite app_nil_r. simpl. repeat split; lia. }
    rewrite plain_invoke.
    destruct (invoke f args w) as [r w1] eqn:Hinv. simpl.
    destruct (invoke_trace _ _ _ _ _ Hinv) as (Htr & _).
    assert (Hone : forall r0 : outcome,
      exists (r' : outcome) (w' : World St) (evs : list event),
        Some (r0, tt, w1) = Some (r', tt, w') /\
        trace w' = trace w ++ evs /\
        Z.of_nat (invocations evs) <= Z.max 0 (max_attempts self - attempt) /\
        Z.of_nat (length (delays evs))
        <= Z.max 0 (max_attempts self - attempt - 1)).
    { intros r0. exists r0, w1, [EvInvoke (c_name f) args].
      simpl. repeat split; auto; lia. }
    destruct r as [v | e]; [apply Hone |].
    destruct (isinstance e TransientError);
      [| destruct (isinstance e PermanentError); apply Hone].
    destruct (Z.leb_spec (max_attempts self) (attempt + 1)); [apply Hone |].
    destruct (time_sleep current_delay w1) as [ve | w2] eqn:Hsl; [apply Hone |].
    destruct (time_sleep_inr _ _ _ Hsl) as (Htr2 & _).
    destruct (IH self f args (attempt + 1)
                 (current_delay * backoff_multiplier self) w2)
      as (r & w' & evs & Hrun & Htr3 & Hinvs & Hdel); [lia |].
    exists r, w', ([EvInvoke (c_name f) args; EvSleep current_delay] ++ evs).
    split; [exact Hrun |]. split.
    + rewrite Htr3, Htr2, Htr, <- !app_assoc. reflexivity.
    + rewrite invocations_app, delays_app, length_app. simpl. lia.
Qed.

(** C4: with the policy (initial delay 5, multiplier 2, 3 attempts), a
    function that raises a [TransientError] on every invocation is invoked
    three times, the caller is suspended for 5 between the first and the
    second invocation and for 10 between the second and the third, not at
    all after the third, and the exception of the third invocation is the
    one propagated.  For any policy with [max_attempts = N >= 1] and any
    function, a run makes at most [N] invocations and at most [N - 1]
    suspensions. *)
Theorem retry_on_transient_failures :
  forall (f : callable St) (service_name : string) args w,
    ((forall args0 env0, exists x env1,
         c_body f args0 env0 = (Err x, env1) /\
         isinstance x TransientError = true) ->
     exists e1 w1 e2 w2 e3 w3 s1 s2,
       invoke f args w = (Err e1, w1) /\
       time_sleep 5 w1 = inr s1 /\ time_time s1 = time_time w1 + 5 /\
       invoke f args s1 = (Err e2, w2) /\
       time_sleep 10 w2 = inr s2 /\ time_time s2 = time_time w2 + 10 /\
       invoke f args s2 = (Err e3, w3) /\
       execute_with_retry (retry_manager.__init__ 5 2 3) (plain f)
                          service_name args tt w
       = Some (Err e3, tt, w3) /\
       trace w3 = trace w ++ [EvInvoke (c_name f) args; EvSleep 5;
                              EvInvoke (c_name f) args; EvSleep 10;
                              EvInvoke (c_name f) args]) /\
    (forall self, 1 <= max_attempts self ->
     exists r w' evs,
       execute_with_retry self (plain f) service_name args tt w
       = Some (r, tt, w') /\
       trace w' = trace w ++ evs /\
       Z.of_nat (invocations evs) <= max_attempts self /\
       Z.of_nat (length (delays evs)) <= max_attempts self - 1).
Proof.
  intros f service_name args w. split.
  - intros Hfail.
    assert (Hinv : forall w0, exists x w1,
               invoke f args w0 = (Err x, w1) /\
               isinstance x TransientError = true /\
               trace w1 = trace w0 ++ [EvInvoke (c_name f) args]).
    { intros w0. unfold invoke.
      destruct (Hfail args (env w0)) as (x & env1 & Hb & Hx).
      rewrite Hb. eexists _, _. repeat split; eauto. }
    destruct (Hinv w) as (e1 & w1 & H1 & T1 & Tr1).
    destruct (time_sleep 5 w1) as [ve | s1] eqn:Hs1;
      [unfold time_sleep in Hs1; simpl in Hs1; discriminate |].
    destruct (Hinv s1) as (e2 & w2 & H2 & T2 & Tr2).
    destruct (time_sleep 10 w2) as [ve | s2] eqn:Hs2;
      [unfold time_sleep in Hs2; simpl in Hs2; discriminate |].
    destruct (Hinv s2) as (e3 & w3 & H3 & T3 & Tr3).
    destruct (time_sleep_inr _ _ _ Hs1) as (Ts1 & _ & _ & Tc1).
    destruct (time_sleep_inr _ _ _ Hs2) as (Ts2 & _ & _ & Tc2).
    exists e1, w1, e2, w2, e3, w3, s1, s2.
    repeat (split; [reflexivity || assumption |]).
    split.
    + assert (Hp : forall w0 x w', invoke f args w0 = (Err x, w') ->
                 plain f args tt w0 = (Err x, tt, w')).
      { intros w0 x w' H. rewrite plain_invoke, H. reflexivity. }
      set (rm := retry_manager.__init__ 5 2 3).
      change (retry_loop 3 rm (plain f) args 0 5 tt w = Some (Err e3, tt, w3)).
      assert (L1 : 0 + 1 < max_attempts rm) by (simpl; lia).
      assert (L2 : 0 + 1 + 1 < max_attempts rm) by (simpl; lia).
      assert (L3 : 0 + 1 + 1 < max_attempts rm <= 0 + 1 + 1 + 1)
        by (simpl; lia).
      rewrite (retry_loop_transient_again 2 rm (plain f) args 0 5 tt w
                 e1 tt w1 s1 (Hp _ _ _ H1) T1 L1 Hs1).
      rewrite (retry_loop_transient_again 1 rm (plain f) args (0 + 1)
                 (5 * backoff_multiplier rm) tt s1
                 e2 tt w2 s2 (Hp _ _ _ H2) T2 L2 Hs2).
      exact (retry_loop_transient_last 0 rm (plain f) args (0 + 1 + 1)
               _ tt s2 e3 tt w3 (Hp _ _ _ H3) T3 L3).
    + rewrite Tr3, Ts2, Tr2, Ts1, Tr1, <- !app_assoc. reflexivity.
  - intros self Hmax. unfold execute_with_retry.
    destruct (retry_loop_bounds (Z.to_nat (max_attempts self)) self f args 0
                (initial_delay self) w)
      as (r & w' & evs & Hrun & Htr & Hinvs & Hdel); [rewrite Z.sub_0_r; lia |].
    exists r, w', evs. repeat split; auto; lia.
Qed.

(** C5: whatever [max_attempts >= 1] is, a function whose invocation
    raises a [PermanentError], or an exception that is neither a
    [TransientError] nor a [PermanentError], is invoked once: its exception
    is propagated at once and the caller is never suspended. *)
Theorem retry_stops_on_other_failures :
  forall self (f : callable St) (service_name : string) args w e w1,
    1 <= max_attempts self ->
    invoke f args w = (Err e, w1) ->
    isinstance e PermanentError = true \/
    (isinstance e TransientError = false /\
     isinstance e PermanentError = false) ->
    execute_with_retry self (plain f) service_name args tt w
    = Some (Err e, tt, w1) /\
    exists evs,
      trace w1 = trace w ++ evs /\
      evs = [EvInvoke (c_name f) args] /\
      invocations evs = 1%nat /\
      delays evs = [].
Proof.
  intros self f service_name args w e w1 Hmax Hinv Hkind.
  assert (Hnt : isinstance e TransientError = false).
  { destruct Hkind as [Hp | [Hnt _]];
      [apply permanent_not_transient; exact Hp | exact Hnt]. }
  destruct (invoke_trace _ _ _ _ _ Hinv) as (Htr & _).
  split; [| exists [EvInvoke (c_name f) args]; auto].
  apply retry_propagates_non_transient; auto.
  rewrite plain_invoke, Hinv. reflexivity.
Qed.

End RetryFacts.

(** The default policy against a function that always times out. *)
Lemma retry_on_transient_failures_witness :
  let probe := mk_callable "probe" timing_out in
  exists e1 w1 e2 w2 e3 w3 s1 s2,
    invoke probe [] w0 = (Err e1, w1) /\
    time_sleep 5 w1 = inr s1 /\ time_time s1 = time_time w1 + 5 /\
    invoke probe [] s1 = (Err e2, w2) /\
    time_sleep 10 w2 = inr s2 /\ time_time s2 = time_time w2 + 10 /\
    invoke probe [] s2 = (Err e3, w3) /\
    execute_with_retry (retry_manager.__init__ 5 2 3) (plain probe)
                       "STT" [] tt w0
    = Some (Err e3, tt, w3) /\
    trace w3 = trace w0 ++ [EvInvoke "probe" []; EvSleep 5;
                            EvInvoke "probe" []; EvSleep 10;
                            EvInvoke "probe" []].
Proof.
  cbv zeta.
  apply (proj1 (retry_on_transient_failures
                  (mk_callable "probe" timing_out) "STT" [] w0)).
  intros args0 env0. eexists _, _. split; reflexivity.
Defined.

(** Five attempts allowed, access denied at the first. *)
Lemma retry_stops_on_other_failures_witness :
  let probe := mk_callable "probe" denied in
  let e :=
    mk_exn AuthenticationError "authentication failed" (Some "STT"%string) in
  let w1 := snd (invoke probe [] w0) in
  execute_with_retry (retry_manager.__init__ 5 2 5) (plain probe) "STT" [] tt w0
  = Some (Err e, tt, w1) /\
  exists evs,
    trace w1 = trace w0 ++ evs /\
    evs = [EvInvoke "probe" []] /\
    invocations evs = 1%nat /\
    delays evs = [].
Proof.
  cbv zeta.
  apply (retry_stops_on_other_failures (retry_manager.__init__ 5 2 5)
           (mk_callable "probe" denied) "STT" [] w0).
  - simpl. lia.
  - reflexivity.
  - left. reflexivity.
Defined.

(** ** The orchestrator *)

Section AgentFacts.

Context {St : Type}.

Implicit Types (self : CallAgent St) (w : World St) (P : event -> Prop).

Lemma quiet_on_refl : forall P w, quiet_on P w w.
Proof.
  intros P w. repeat split. exists []. rewrite app_nil_r. auto.
Qed.

Lemma quiet_on_trans : forall P w w1 w2,
  quiet_on P w w1 -> quiet_on P w1 w2 -> quiet_on P w w2.
Proof.
  intros P w w1 w2 (Hl1 & Ha1 & evs1 & Ht1 & Hf1) (Hl2 & Ha2 & evs2 & Ht2 & Hf2).
  repeat split; try congruence.
  exists (evs1 ++ evs2). split.
  - rewrite Ht2, Ht1, app_assoc. reflexivity.
  - apply Forall_app; auto.
Qed.

Lemma invoke_quiet : forall (f : callable St) args w r w1,
  invoke f args w = (r, w1) -> quiet_on (only_invokes (c_name f)) w w1.
Proof.
  intros f args w r w1 H.
  destruct (invoke_trace _ _ _ _ _ H) as (Ht & Hl & Ha).
  repeat split; auto. eexists. split; [exact Ht |].
  constructor; [reflexivity | constructor].
Qed.

Lemma call_quiet : forall b (f : callable St) args w r b1 w1,
  call b f args w = (r, b1, w1) -> quiet_on (only_invokes (c_name f)) w w1.
Proof.
  intros b f args w r b1 w1. unfold call.
  destruct (gate b w) as [e | half].
  - intros H; inversion H; subst. apply quiet_on_refl.
  - unfold attempt. destruct (invoke f args w) as [r0 w0] eqn:Hinv.
    pose proof (invoke_quiet _ _ _ _ _ Hinv) as Hq.
    destruct r0; intros H; inversion H; subst; exact Hq.
Qed.

Lemma sleep_quiet : forall P seconds w w1,
  (forall d, P (EvSleep d)) ->
  time_sleep seconds w = inr w1 -> quiet_on P w w1.
Proof.
  intros P seconds w w1 HP H.
  destruct (time_sleep_inr _ _ _ H) as (Ht & Hl & Ha & _).
  repeat split; auto. eexists. split; [exact Ht |].
  constructor; [apply HP | constructor].
Qed.

(** The retry loop touches the world only through the retried function
    and [time.sleep]. *)
Lemma retry_loop_quiet : forall {A : Type} P (func : @closure St A) rm,
  (forall d, P (EvSleep d)) ->
  (forall args a w r a1 w1, func args a w = (r, a1, w1) -> quiet_on P w w1) ->
  forall fuel args attempt current_delay a w r a' w',
    retry_loop fuel rm func args attempt current_delay a w = Some (r, a', w') ->
    quiet_on P w w'.
Proof.
  intros A P func rm HP Hfunc. induction fuel as [| fuel IH];
    intros args attempt current_delay a w r a' w'; simpl;
    destruct (attempt <? max_attempts rm);
    try (intros H; inversion H; subst; apply quiet_on_refl); try discriminate.
  destruct (func args a w) as [[[v | e] a1] w1] eqn:Hf;
    pose proof (Hfunc _ _ _ _ _ _ Hf) as Hq.
  - intros H; inversion H; subst; exact Hq.
  - destruct (isinstance e TransientError).
    + destruct (max_attempts rm <=? attempt + 1).
      * intros H; inversion H; subst; exact Hq.
      * destruct (time_sleep current_delay w1) as [ve | w2] eqn:Hs.
        -- intros H; inversion H; subst; exact Hq.
        -- intros H. apply IH in H.
           eapply quiet_on_trans; [exact Hq |].
           eapply quiet_on_trans; [| exact H].
           eapply sleep_quiet; eauto.
    + destruct (isinstance e PermanentError);
        intros H; inversion H; subst; exact Hq.
Qed.

(** A stage always returns; what it adds to the trace comes from its
    lambda and from sleeping, and its exit decides what is reported. *)
Lemma stage_call_spec : forall P (lam : @closure St (CallAgent St)) name
  breaker self w,
  (forall d, P (EvSleep d)) ->
  (forall args a w0 r a1 w1, lam args a w0 = (r, a1, w1) -> quiet_on P w0 w1) ->
  exists r self1 w1,
    stage_call lam name breaker self w = Some (r, self1, w1) /\
    (exists evs, trace w1 = trace w ++ evs /\ Forall P evs) /\
    reported name r w w1.
Proof.
  intros P lam name breaker self w HP Hlam. unfold stage_call.
  destruct (execute_with_retry_total (retry_manager self) lam name [] self w)
    as [[[r s1] w1] Hrun].
  rewrite Hrun.
  destruct (retry_loop_quiet P lam _ HP Hlam _ _ _ _ _ _ _ _ _ Hrun)
    as (Hl & Ha & evs & Ht & Hevs).
  destruct r as [v | e].
  - exists (Ok v), s1, w1. repeat split; eauto.
  - destruct (isinstance e TransientError) eqn:HT;
      [| destruct (isinstance e PermanentError) eqn:HP'].
    + eexists (Err e), s1, _. split; [reflexivity |]. split.
      * exists evs. simpl. auto.
      * unfold reported. rewrite HT. eexists _, _.
        simpl. rewrite Hl, Ha. repeat split.
    + eexists (Err e), s1, _. split; [reflexivity |]. split.
      * exists evs. simpl. auto.
      * unfold reported. rewrite HT, HP'. eexists _, _.
        simpl. rewrite Hl, Ha. repeat split.
    + exists (Err e), s1, w1. split; [reflexivity |]. split; [eauto |].
      unfold reported. rewrite HT, HP'. split; auto.
Qed.

End AgentFacts.

Lemma only_invokes_elsewhere : forall name other evs,
  String.eqb name other = false ->
  Forall (only_invokes name) evs ->
  invocations_of other evs = 0%nat.
Proof.
  intros name other evs Hne Hall. unfold invocations_of.
  induction Hall as [| ev evs Hev _ IH]; [reflexivity |].
  simpl. destruct ev as [n a | d]; [| exact IH].
  simpl in Hev; subst n. rewrite Hne. exact IH.
Qed.

Lemma invocations_of_app : forall name xs ys,
  invocations_of name (xs ++ ys)
  = (invocations_of name xs + invocations_of name ys)%nat.
Proof.
  intros. unfold invocations_of. rewrite filter_app, length_app. reflexivity.
Qed.

Section AgentTheorems.

Context {St : Type}.

Implicit Types (self : CallAgent St) (w : World St).

Lemma stt_lambda_quiet : forall audio_input args self w r self1 w1,
  stt_lambda audio_input args self w = (r, self1, w1) ->
  quiet_on (only_invokes "stt_service.transcribe") w w1.
Proof.
  intros audio_input args self w r self1 w1. unfold stt_lambda.
  destruct (call (stt_breaker self) (transcribe self) [audio_input] w)
    as [[r0 b] w0] eqn:Hc.
  intros H; inversion H; subst. exact (call_quiet _ _ _ _ _ _ _ Hc).
Qed.

Lemma llm_lambda_quiet : forall text args self w r self1 w1,
  llm_lambda text args self w = (r, self1, w1) ->
  quiet_on (only_invokes "llm_service.generate_response") w w1.
Proof.
  intros text args self w r self1 w1. unfold llm_lambda.
  destruct (call (llm_breaker self) (generate_response self) [text] w)
    as [[r0 b] w0] eqn:Hc.
  intros H; inversion H; subst. exact (call_quiet _ _ _ _ _ _ _ Hc).
Qed.

Lemma tts_lambda_quiet : forall text args self w r self1 w1,
  tts_lambda text args self w = (r, self1, w1) ->
  quiet_on (only_invokes "tts_service.synthesize") w w1.
Proof.
  intros text args self w r self1 w1. unfold tts_lambda.
  destruct (call (tts_breaker self) (synthesize self) [text] w)
    as [[r0 b] w0] eqn:Hc.
  intros H; inversion H; subst. exact (call_quiet _ _ _ _ _ _ _ Hc).
Qed.

(** The three stage methods are instances of one shape. *)
Lemma _call_stt_service_shape : forall self audio_input w,
  _call_stt_service self audio_input w
  = stage_call (stt_lambda audio_input) "STT" stt_breaker self w.
Proof. reflexivity. Qed.

Lemma _call_llm_service_shape : forall self text w,
  _call_llm_service self text w
  = stage_call (llm_lambda text) "LLM" llm_breaker self w.
Proof. reflexivity. Qed.

Lemma _call_tts_service_shape : forall self text w,
  _call_tts_service self text w
  = stage_call (tts_lambda text) "TTS" tts_breaker self w.
Proof. reflexivity. Qed.

Lemma sleeps_allowed : forall name d, only_invokes name (EvSleep d).
Proof. intros; exact I. Qed.

(** What each of the three stage methods does. *)
Lemma _call_stt_service_spec : forall self audio_input w,
  exists r self1 w1,
    _call_stt_service self audio_input w = Some (r, self1, w1) /\
    (exists evs, trace w1 = trace w ++ evs /\
                 Forall (only_invokes "stt_service.transcribe") evs) /\
    reported "STT" r w w1.
Proof.
  intros self audio_input w. rewrite _call_stt_service_shape.
  exact (stage_call_spec _ (stt_lambda audio_input) "STT" stt_breaker self w
           (sleeps_allowed _) (stt_lambda_quiet audio_input)).
Qed.

Lemma _call_llm_service_spec : forall self text w,
  exists r self1 w1,
    _call_llm_service self text w = Some (r, self1, w1) /\
    (exists evs, trace w1 = trace w ++ evs /\
                 Forall (only_invokes "llm_service.generate_response") evs) /\
    reported "LLM" r w w1.
Proof.
  intros self text w. rewrite _call_llm_service_shape.
  exact (stage_call_spec _ (llm_lambda text) "LLM" llm_breaker self w
           (sleeps_allowed _) (llm_lambda_quiet text)).
Qed.

Lemma _call_tts_service_spec : forall self text w,
  exists r self1 w1,
    _call_tts_service self text w = Some (r, self1, w1) /\
    (exists evs, trace w1 = trace w ++ evs /\
                 Forall (only_invokes "tts_service.synthesize") evs) /\
    reported "TTS" r w w1.
Proof.
  intros self text w. rewrite _call_tts_service_shape.
  exact (stage_call_spec _ (tts_lambda text) "TTS" tts_breaker self w
           (sleeps_allowed _) (tts_lambda_quiet text)).
Qed.

Lemma reported_after_unreported : forall name r w w1 w2,
  unreported w w1 -> reported name r w1 w2 -> reported name r w w2.
Proof.
  intros name r w w1 w2 [Hl Ha]. unfold reported, one_report, unreported.
  rewrite Hl, Ha. auto.
Qed.

(** C7, as the code has it: every pipeline invocation returns, and what
    it leaves in the two files is decided by the exception that ended it.
    A [TransientError] adds exactly one log entry and exactly one alert of
    severity MEDIUM, a [PermanentError] exactly one log entry and exactly
    one alert of severity HIGH, both for the stage that failed; an
    exception of any other kind, the breaker-open rejection among them,
    adds neither, and so does a successful run.  The caller receives
    [None] for every failure. *)
Theorem terminal_failure_reports :
  forall self audio_input w,
  exists r self' w' stage,
    process_call_try self audio_input w = Some (r, self', w') /\
    process_call self audio_input w
    = Some (match r with Ok audio_output => audio_output | Err _ => VNone end,
            self', w') /\
    In stage ["STT"; "LLM"; "TTS"]%string /\
    reported stage r w w'.
Proof.
  intros self audio_input w. unfold process_call, process_call_try.
  destruct (_call_stt_service_spec self audio_input w)
    as (r1 & s1 & w1 & H1 & _ & R1).
  rewrite H1. destruct r1 as [text | e1].
  2:{ exists (Err e1), s1, w1, "STT"%string.
      split; [reflexivity | split; [reflexivity | split; [simpl; auto |]]].
      exact R1. }
  destruct (_call_llm_service_spec s1 text w1) as (r2 & s2 & w2 & H2 & _ & R2).
  rewrite H2. destruct r2 as [response | e2].
  2:{ exists (Err e2), s2, w2, "LLM"%string.
      split; [reflexivity | split; [reflexivity | split; [simpl; auto |]]].
      exact (reported_after_unreported _ _ _ _ _ R1 R2). }
  destruct (_call_tts_service_spec s2 response w2)
    as (r3 & s3 & w3 & H3 & _ & R3).
  rewrite H3.
  assert (R12 : unreported w w2).
  { destruct R1 as [A1 B1], R2 as [A2 B2]. split; congruence. }
  exists r3, s3, w3, "TTS"%string.
  pose proof (reported_after_unreported _ _ _ _ _ R12 R3) as R.
  destruct r3 as [audio_output | e3];
    (split; [reflexivity | split; [reflexivity | split; [simpl; auto 6 | exact R]]]).
Qed.

(** Every pipeline invocation returns. *)
Lemma process_call_returns : forall self audio_input w,
  exists v self' w', process_call self audio_input w = Some (v, self', w').
Proof.
  intros self audio_input w. unfold process_call, process_call_try.
  destruct (_call_stt_service_spec self audio_input w)
    as (r1 & s1 & w1 & H1 & _).
  rewrite H1. destruct r1 as [text | e1]; [| eauto].
  destruct (_call_llm_service_spec s1 text w1) as (r2 & s2 & w2 & H2 & _).
  rewrite H2. destruct r2 as [response | e2]; [| eauto].
  destruct (_call_tts_service_spec s2 response w2) as (r3 & s3 & w3 & H3 & _).
  rewrite H3. destruct r3; eauto.
Qed.

(** C8, as the code has it: every pipeline invocation returns; a stage
    that fails is the last thing the pipeline does, so that no later
    stage's function is invoked, and the caller receives [None], which
    names neither the failure nor the stage; when the three stages succeed
    the caller receives the payload of the last one. *)
Theorem failure_aborts_pipeline :
  forall self audio_input w,
    (exists v self' w',
        process_call self audio_input w = Some (v, self', w')) /\
    (forall e self1 w1,
        _call_stt_service self audio_input w = Some (Err e, self1, w1) ->
        process_call self audio_input w = Some (VNone, self1, w1) /\
        exists evs, trace w1 = trace w ++ evs /\
          invocations_of "llm_service.generate_response" evs = 0%nat /\
          invocations_of "tts_service.synthesize" evs = 0%nat) /\
    (forall text self1 w1 e self2 w2,
        _call_stt_service self audio_input w = Some (Ok text, self1, w1) ->
        _call_llm_service self1 text w1 = Some (Err e, self2, w2) ->
        process_call self audio_input w = Some (VNone, self2, w2) /\
        exists evs, trace w2 = trace w ++ evs /\
          invocations_of "tts_service.synthesize" evs = 0%nat) /\
    (forall text self1 w1 response self2 w2 r self3 w3,
        _call_stt_service self audio_input w = Some (Ok text, self1, w1) ->
        _call_llm_service self1 text w1 = Some (Ok response, self2, w2) ->
        _call_tts_service self2 response w2 = Some (r, self3, w3) ->
        process_call self audio_input w
        = Some (match r with
                | Ok audio_output => audio_output
                | Err _ => VNone
                end, self3, w3)).
Proof.
  intros self audio_input w.
  split; [apply process_call_returns |].
  unfold process_call, process_call_try.
  split; [| split].
  - intros e self1 w1 H1. rewrite H1. split; [reflexivity |].
    destruct (_call_stt_service_spec self audio_input w)
      as (r & s & w' & H & (evs & Ht & Hall) & _).
    rewrite H in H1; inversion H1; subst.
    exists evs. split; [exact Ht |].
    split;
      apply (only_invokes_elsewhere "stt_service.transcribe" _ evs); auto.
  - intros text self1 w1 e self2 w2 H1 H2. rewrite H1, H2.
    split; [reflexivity |].
    destruct (_call_stt_service_spec self audio_input w)
      as (r & s & w' & H & (evs1 & Ht1 & Hall1) & _).
    rewrite H in H1; inversion H1; subst.
    destruct (_call_llm_service_spec self1 text w1)
      as (r & s & w' & H' & (evs2 & Ht2 & Hall2) & _).
    rewrite H' in H2; inversion H2; subst.
    exists (evs1 ++ evs2). split.
    + rewrite Ht2, Ht1, app_assoc. reflexivity.
    + rewrite invocations_of_app.
      rewrite (only_invokes_elsewhere "stt_service.transcribe"
                 "tts_service.synthesize" evs1 eq_refl Hall1).
      rewrite (only_invokes_elsewhere "llm_service.generate_response"
                 "tts_service.synthesize" evs2 eq_refl Hall2).
      reflexivity.
  - intros text self1 w1 response self2 w2 r self3 w3 H1 H2 H3.
    rewrite H1, H2, H3. destruct r; reflexivity.
Qed.

End AgentTheorems.

(** ** The breaker-open rejection on its way up *)

Lemma open_error_kind : forall b,
  cls (open_error b) = Exception /\
  isinstance (open_error b) TransientError = false /\
  isinstance (open_error b) PermanentError = false.
Proof. intros b. repeat split. Qed.

Lemma plain_exception_kind : forall e,
  cls e = Exception ->
  isinstance e TransientError = false /\ isinstance e PermanentError = false.
Proof. intros [c m s] H; simpl in H; subst c. split; reflexivity. Qed.

Section RejectionFacts.

Context {St : Type}.

Implicit Types (self : CallAgent St) (w : World St).

Lemma rejected_call : forall b (f : callable St) args w t,
  state b = OPEN -> last_failure_time b = Some t ->
  time_time w - t < timeout b ->
  call b f args w = (Err (open_error b), b, w).
Proof.
  intros b f args w t Hs Ht Hlt. unfold call.
  rewrite (gate_open_waiting b w t Hs Ht Hlt). reflexivity.
Qed.

(** A failure that is not a [TransientError] ends the loop from any
    iteration. *)
Lemma retry_loop_stops : forall {A : Type} fuel rm (func : @closure St A)
  args attempt current_delay a w e a1 w1,
  attempt < max_attempts rm ->
  func args a w = (Err e, a1, w1) ->
  isinstance e TransientError = false ->
  retry_loop (S fuel) rm func args attempt current_delay a w
  = Some (Err e, a1, w1).
Proof.
  intros A fuel rm func args attempt current_delay a w e a1 w1 Hlt Hf HT.
  simpl. destruct (Z.ltb_spec attempt (max_attempts rm)); [| lia].
  rewrite Hf, HT. destruct (isinstance e PermanentError); reflexivity.
Qed.

(** The stage methods, through their common shape. *)
Lemma stage_call_passes_rejection : forall (lam : @closure St (CallAgent St))
  name breaker self w,
  1 <= max_attempts (retry_manager self) ->
  (forall t,
      state (breaker self) = OPEN ->
      last_failure_time (breaker self) = Some t ->
      time_time w - t < timeout (breaker self) ->
      lam [] self w = (Err (open_error (breaker self)), self, w)) ->
  passes_rejection lam name (stage_call lam name breaker) breaker self w.
Proof.
  intros lam name breaker self w Hmax Hlam. split.
  - intros t Hs Ht Hlt. specialize (Hlam t Hs Ht Hlt).
    assert (Hrun : execute_with_retry (retry_manager self) lam name [] self w
                   = Some (Err (open_error (breaker self)), self, w))
      by (apply retry_propagates_non_transient; auto).
    split; [| split].
    + intros fuel attempt current_delay Hlt'.
      apply retry_loop_stops; auto.
    + exact Hrun.
    + unfold stage_call. rewrite Hrun. reflexivity.
  - intros e self1 w1 Hrun He.
    destruct (plain_exception_kind e He) as [HT HP].
    unfold stage_call. rewrite Hrun, HT, HP. reflexivity.
Qed.

(** C10: the breaker-open error is a plain [Exception], neither a
    [TransientError] nor a [PermanentError].  In each of the three stages,
    when the stage's breaker refuses the call, the retry loop returns that
    error from the iteration in which it was raised, without another
    attempt and without sleeping, and the stage method lets it through:
    agent and world are as before, so nothing was invoked, nothing was
    logged and no alert was sent.  A retry run that ends with a plain
    [Exception] at any iteration is passed on by the stage method with the
    two files as the run left them. *)
Theorem open_rejection_passes_silently :
  forall self (input : value) w,
    1 <= max_attempts (retry_manager self) ->
    (forall b, cls (open_error b) = Exception /\
               isinstance (open_error b) TransientError = false /\
               isinstance (open_error b) PermanentError = false) /\
    passes_rejection (stt_lambda input) "STT"
      (fun self w => _call_stt_service self input w) stt_breaker self w /\
    passes_rejection (llm_lambda input) "LLM"
      (fun self w => _call_llm_service self input w) llm_breaker self w /\
    passes_rejection (tts_lambda input) "TTS"
      (fun self w => _call_tts_service self input w) tts_breaker self w.
Proof.
  intros self input w Hmax.
  split; [exact open_error_kind |].
  split; [| split].
  - apply (stage_call_passes_rejection (stt_lambda input) "STT" stt_breaker);
      [exact Hmax |].
    intros t Hs Ht Hlt.
    unfold stt_lambda. rewrite (rejected_call _ _ _ _ t Hs Ht Hlt).
    destruct self; reflexivity.
  - apply (stage_call_passes_rejection (llm_lambda input) "LLM" llm_breaker);
      [exact Hmax |].
    intros t Hs Ht Hlt.
    unfold llm_lambda. rewrite (rejected_call _ _ _ _ t Hs Ht Hlt).
    destruct self; reflexivity.
  - apply (stage_call_passes_rejection (tts_lambda input) "TTS" tts_breaker);
      [exact Hmax |].
    intros t Hs Ht Hlt.
    unfold tts_lambda. rewrite (rejected_call _ _ _ _ t Hs Ht Hlt).
    destruct self; reflexivity.
Qed.

End RejectionFacts.

(** Each of the three breakers open since time 10, asked at time 20. *)
Lemma open_rejection_passes_silently_witness :
  _call_stt_service agent_stt_open audio (at_time 20)
  = Some (Err (open_error tripped), agent_stt_open, at_time 20) /\
  _call_llm_service agent_llm_open audio (at_time 20)
  = Some (Err (open_error tripped), agent_llm_open, at_time 20) /\
  _call_tts_service agent_tts_open audio (at_time 20)
  = Some (Err (open_error tripped), agent_tts_open, at_time 20).
Proof.
  split; [| split].
  - refine (proj2 (proj2 (proj1 (proj1 (proj2 (open_rejection_passes_silently
              agent_stt_open audio (at_time 20) _))) 10 _ _ _)));
      [simpl; lia | reflexivity | reflexivity | vm_compute; reflexivity].
  - refine (proj2 (proj2 (proj1 (proj1 (proj2 (proj2
              (open_rejection_passes_silently
                 agent_llm_open audio (at_time 20) _)))) 10 _ _ _)));
      [simpl; lia | reflexivity | reflexivity | vm_compute; reflexivity].
  - refine (proj2 (proj2 (proj1 (proj2 (proj2 (proj2
              (open_rejection_passes_silently
                 agent_tts_open audio (at_time 20) _)))) 10 _ _ _)));
      [simpl; lia | reflexivity | reflexivity | vm_compute; reflexivity].
Defined.

(** ** The pipeline on concrete services *)

(** The claim that every terminal failure is logged and alerted once
    fails on a breaker-open rejection.  The speech-to-text service times
    out on every call.  A first pipeline invocation uses up its three
    attempts, which opens the STT breaker, and is reported once.  A second
    invocation right after is refused by the breaker: it fails, the caller
    gets [None], and neither file gains a record. *)
Lemma rejected_invocation_leaves_no_record :
  exists self1 w1 e self2 w2,
    process_call agent_stt_down audio w0 = Some (VNone, self1, w1) /\
    length (error_log w1) = 1%nat /\ length (alerts_file w1) = 1%nat /\
    state (stt_breaker self1) = OPEN /\
    process_call_try self1 audio w1 = Some (Err e, self2, w2) /\
    e = open_error (stt_breaker self1) /\
    process_call self1 audio w1 = Some (VNone, self2, w2) /\
    error_log w2 = error_log w1 /\
    alerts_file w2 = alerts_file w1.
Proof.
  eexists _, _, _, _, _.
  split; [vm_compute; reflexivity |].
  split; [reflexivity |]. split; [reflexivity |]. split; [reflexivity |].
  split; [vm_compute; reflexivity |].
  split; [reflexivity |].
  split; [vm_compute; reflexivity |].
  split; reflexivity.
Qed.

(** The claim that an aborted pipeline returns a result carrying the
    failure kind and the stage fails: a pipeline stopped at the first stage
    by an [AuthenticationError] and one stopped at the second stage by a
    [TimeoutError] hand the same bare [None] to the caller. *)
Lemma aborted_pipeline_returns_bare_none :
  exists e1 self1 w1 text s w e2 self2 w2,
    _call_stt_service agent_stt_denied audio w0 = Some (Err e1, self1, w1) /\
    cls e1 = AuthenticationError /\
    process_call agent_stt_denied audio w0 = Some (VNone, self1, w1) /\
    _call_stt_service agent_llm_down audio w0 = Some (Ok text, s, w) /\
    _call_llm_service s text w = Some (Err e2, self2, w2) /\
    cls e2 = TimeoutError /\
    process_call agent_llm_down audio w0 = Some (VNone, self2, w2).
Proof.
  eexists _, _, _, _, _, _, _, _, _.
  split; [vm_compute; reflexivity |].
  split; [reflexivity |].
  split; [vm_compute; reflexivity |].
  split; [vm_compute; reflexivity |].
  split; [vm_compute; reflexivity |].
  split; [reflexivity |].
  vm_compute; reflexivity.
Qed.

(** The language model is down: the pipeline stops after the second
    stage and the synthesizer is never called. *)
Lemma failure_aborts_pipeline_witness :
  exists self2 w2,
    process_call agent_llm_down audio w0 = Some (VNone, self2, w2) /\
    exists evs, trace w2 = trace w0 ++ evs /\
      invocations_of "tts_service.synthesize" evs = 0%nat.
Proof.
  eexists _, _.
  eapply (proj1 (proj2 (proj2
            (failure_aborts_pipeline agent_llm_down audio w0))));
    vm_compute; reflexivity.
Defined.

(** All services answer: the caller receives the synthesizer's payload
    and nothing is reported. *)
Lemma terminal_failure_reports_witness :
  exists r self' w' stage,
    process_call_try agent_ok audio w0 = Some (r, self', w') /\
    process_call agent_ok audio w0
    = Some (match r with Ok audio_output => audio_output | Err _ => VNone end,
            self', w') /\
    In stage ["STT"; "LLM"; "TTS"]%string /\
    reported stage r w0 w'.
Proof.
  exact (terminal_failure_reports agent_ok audio w0).
Defined.

(** A breaker can also open in the middle of a retry run.  Two pipeline
    invocations are denied access at the first stage; each is reported
    and each counts one failure.  In the third the service times out: that
    third failure opens the breaker, the executor sleeps 5 and tries again,
    the breaker refuses, and the invocation ends with the breaker-open
    error, which is not reported. *)
Lemma breaker_opening_during_retries :
  exists self1 w1 self2 w2 e self3 w3,
    process_call agent_degrading audio start = Some (VNone, self1, w1) /\
    process_call self1 audio w1 = Some (VNone, self2, w2) /\
    length (error_log w2) = 2%nat /\
    state (stt_breaker self2) = CLOSED /\
    failure_count (stt_breaker self2) = 2 /\
    process_call_try self2 audio w2 = Some (Err e, self3, w3) /\
    e = open_error (stt_breaker self3) /\
    state (stt_breaker self3) = OPEN /\
    trace w3 = trace w2 ++ [EvInvoke "stt_service.transcribe" [audio];
                            EvSleep 5] /\
    error_log w3 = error_log w2 /\
    alerts_file w3 = alerts_file w2.
Proof.
  eexists _, _, _, _, _, _, _.
  split; [vm_compute; reflexivity |].
  split; [vm_compute; reflexivity |].
  split; [reflexivity |]. split; [reflexivity |]. split; [reflexivity |].
  split; [vm_compute; reflexivity |].
  repeat split.
Qed.

(* ================================================================== *)
(** * Further properties of the code *)

(** ** exceptions.py *)

(** X1: the error that [classify_error] builds is retry-eligible (a
    [TransientError]) exactly for the status codes 429, 408 and 500..599,
    and a [PermanentError] for every other code: it is never of an
    unknown kind. *)
Theorem classified_error_retryable_iff :
  forall (status_code : Z) (error_message : string),
    let e := classify_error status_code error_message in
    (isinstance e TransientError = true <->
     status_code = 429 \/ status_code = 408 \/ 500 <= status_code < 600) /\
    (isinstance e PermanentError = true <->
     ~ (status_code = 429 \/ status_code = 408 \/ 500 <= status_code < 600)).
Proof.
  intros status_code error_message e; subst e. unfold classify_error.
  settle_status_tests; cbv [isinstance issubclass mro ancestors base cls new
                            existsb exn_class_eqb orb];
    (split; split; intros ?; try reflexivity; try discriminate; try lia).
Qed.


(** ** circuit_breaker.py *)

Section BreakerMore.

Context {St : Type}.

Implicit Types (b : CircuitBreaker) (func : callable St)
         (args : list value) (w : World St).

Lemma on_success_closes : forall b,
  state b <> OPEN ->
  state (_on_success b) = CLOSED /\ failure_count (_on_success b) = 0 /\
  same_config b (_on_success b) /\
  last_failure_time (_on_success b) = last_failure_time b /\
  (success_count b = 0 -> success_count (_on_success b) = 0).
Proof.
  intros b H. unfold _on_success, same_config.
  destruct (state b) eqn:Hs; simpl; try congruence; rewrite ?Hs; auto 10.
Qed.

Lemma on_failure_facts : forall b w,
  failure_count (_on_failure b w) = failure_count b + 1 /\
  last_failure_time (_on_failure b w) = Some (time_time w) /\
  same_config b (_on_failure b w) /\
  success_count (_on_failure b w) = success_count b /\
  state (_on_failure b w) =
    match state b with
    | HALF_OPEN => OPEN
    | CLOSED => if failure_threshold b <=? failure_count b + 1
                then OPEN else CLOSED
    | OPEN => OPEN
    end.
Proof.
  intros b w. unfold _on_failure, same_config. simpl.
  destruct (state b) eqn:Hs; simpl; rewrite ?Hs;
    try destruct (failure_threshold b <=? failure_count b + 1);
    simpl; auto 10.
Qed.

(** The two ways a call can go. *)
Lemma call_cases : forall b func args w,
  (state b = OPEN /\ call b func args w = (Err (open_error b), b, w)) \/
  (exists half,
      gate b w = inr half /\ state half <> OPEN /\
      same_config b half /\ failure_count half = failure_count b /\
      success_count half = success_count b /\
      last_failure_time half = last_failure_time b /\
      (state half = state b \/ (state b = OPEN /\ state half = HALF_OPEN)) /\
      call b func args w = attempt half func args w).
Proof.
  intros b func args w. unfold call, gate.
  destruct (state b) eqn:Hs; simpl.
  - right. exists b. rewrite Hs. unfold same_config.
    repeat split; auto; congruence.
  - destruct (_should_attempt_reset b w).
    + right. exists (set_state HALF_OPEN b). unfold same_config. simpl.
      repeat split; auto; congruence.
    + left. auto.
  - right. exists b. rewrite Hs. unfold same_config.
    repeat split; auto; congruence.
Qed.

(** X3: whatever state the breaker was in, a call that returns leaves it
    CLOSED with failure count 0, its configuration untouched. *)
Theorem successful_call_closes_breaker :
  forall b func args w v b' w',
    call b func args w = (Ok v, b', w') ->
    state b' = CLOSED /\ failure_count b' = 0 /\ same_config b b'.
Proof.
  intros b func args w v b' w' H.
  destruct (call_cases b func args w)
    as [[_ Hrej] | (half & _ & Hno & Hcfg & _ & _ & _ & _ & Hatt)].
  - rewrite Hrej in H. discriminate.
  - rewrite Hatt in H. unfold attempt in H.
    destruct (invoke func args w) as [[v0 | e0] w0]; inversion H; subst.
    destruct (on_success_closes half Hno) as (A & B & C & _).
    repeat split; auto; unfold same_config in *; intuition congruence.
Qed.


(** X7: the breaker never alters what the wrapped function does: either
    it refuses the call (it is OPEN, and nothing changes), or the outcome
    and the world are those of invoking the function. *)
Theorem call_is_transparent :
  forall b func args w,
    (state b = OPEN /\ call b func args w = (Err (open_error b), b, w)) \/
    (fst (fst (call b func args w)) = fst (invoke func args w) /\
     snd (call b func args w) = snd (invoke func args w)).
Proof.
  intros b func args w.
  destruct (call_cases b func args w)
    as [Hrej | (half & _ & _ & _ & _ & _ & _ & _ & Hatt)]; [left; exact Hrej |].
  right. rewrite Hatt. unfold attempt.
  destruct (invoke func args w) as [[v0 | e0] w0]; simpl; auto.
Qed.

End BreakerMore.

Lemma same_config_refl : forall b, same_config b b.
Proof. intros b. repeat split. Qed.

Lemma same_config_trans : forall b1 b2 b3,
  same_config b1 b2 -> same_config b2 b3 -> same_config b1 b3.
Proof.
  unfold same_config. intros b1 b2 b3 (A1 & B1 & C1) (A2 & B2 & C2).
  repeat split; congruence.
Qed.

Lemma fresh_breaker_settled : forall T timeout name,
  1 <= T -> settled (circuit_breaker.__init__ T timeout name).
Proof.
  intros T timeout name HT. unfold settled. simpl.
  repeat split; try congruence; lia.
Qed.

Lemma reset_settled : forall b,
  settled b -> settled (reset b) /\ same_config b (reset b).
Proof.
  intros b (HT & _ & _ & Hsc & _ & _). unfold settled, same_config. simpl.
  repeat split; try congruence; lia.
Qed.

Section BreakerInvariant.

Context {St : Type}.

Implicit Types (b : CircuitBreaker) (func : callable St)
         (args : list value) (w : World St).

(** A call keeps a breaker settled and its configuration as it was. *)
Lemma call_settled : forall b func args w r b' w',
  settled b ->
  call b func args w = (r, b', w') ->
  settled b' /\ same_config b b'.
Proof.
  intros b func args w r b' w' Hb Hcall.
  pose proof Hb as (HT & Hnh & Hc & Hsc & Hopen & Hclosed).
  destruct (call_cases b func args w)
    as [[_ Hrej] | (half & _ & Hno & Hcfg & Hfc & Hs & Hl & Hst & Hatt)].
  - rewrite Hrej in Hcall. inversion Hcall; subst.
    split; [exact Hb | apply same_config_refl].
  - rewrite Hatt in Hcall. unfold attempt in Hcall.
    destruct (invoke func args w) as [[v0 | e0] w0];
      inversion Hcall; subst r b' w'.
    + destruct (on_success_closes half Hno) as (A & B & C & D & E).
      split; [| eapply same_config_trans; eauto].
      destruct Hcfg as (Ht & _), C as (Ht' & _).
      unfold settled. rewrite A, B, Ht', Ht.
      repeat split; try congruence; try lia;
        try (apply E; congruence).
    + destruct (on_failure_facts half w0) as (A & B & C & D & E).
      split; [| eapply same_config_trans; eauto].
      destruct Hcfg as (Ht & _), C as (Ht' & _).
      unfold settled. rewrite A, B, D, E, Ht', Ht, Hfc, Hs.
      destruct Hst as [Hst | [Hst1 Hst2]].
      * rewrite Hst.
        destruct (state b) eqn:Hsb; try congruence.
        destruct (Z.leb_spec (failure_threshold b) (failure_count b + 1));
          repeat split; try congruence; try lia.
      * rewrite Hst2. repeat split; try congruence; lia.
Qed.

Lemma run_ops_settled : forall (ops : list (breaker_op St)) b w,
  settled b ->
  settled (fst (run_ops b ops w)) /\ same_config b (fst (run_ops b ops w)).
Proof.
  induction ops as [| [func args |] ops IH]; intros b w Hb; simpl.
  - split; [exact Hb | apply same_config_refl].
  - destruct (call b func args w) as [[r b1] w1] eqn:Hcall.
    destruct (call_settled _ _ _ _ _ _ _ Hb Hcall) as [Hb1 Hc1].
    destruct (IH b1 w1 Hb1) as [Hb2 Hc2].
    split; [exact Hb2 | exact (same_config_trans _ _ _ Hc1 Hc2)].
  - destruct (reset_settled b Hb) as [Hb1 Hc1].
    destruct (IH (reset b) w Hb1) as [Hb2 Hc2].
    split; [exact Hb2 | exact (same_config_trans _ _ _ Hc1 Hc2)].
Qed.


(** X6: [reset] closes the breaker, zeroes the failure count and forgets
    the last failure, whatever the state was, and keeps the
    configuration; the next call is let through to the function even if
    the breaker was OPEN and its timeout had not passed.  With
    [success_count] at 0 the breaker is as when it was created. *)
Theorem reset_restores_fresh_breaker :
  forall b func args w,
    state (reset b) = CLOSED /\
    failure_count (reset b) = 0 /\
    last_failure_time (reset b) = None /\
    same_config b (reset b) /\
    (success_count b = 0 ->
     reset b = circuit_breaker.__init__ (failure_threshold b)
                 (circuit_breaker.timeout b) (circuit_breaker.service_name b)) /\
    call (reset b) func args w = attempt (reset b) func args w /\
    fst (fst (call (reset b) func args w)) = fst (invoke func args w).
Proof.
  intros b func args w.
  repeat (split; [reflexivity |]).
  split; [repeat split |].
  split.
  - intros Hsc. destruct b; simpl in *; subst; reflexivity.
  - assert (Hcall : call (reset b) func args w = attempt (reset b) func args w)
      by (unfold call; rewrite gate_not_open by (simpl; congruence);
          reflexivity).
    split; [exact Hcall |]. rewrite Hcall. unfold attempt.
    destruct (invoke func args w) as [[v | e] w1]; reflexivity.
Qed.

End BreakerInvariant.

Lemma successful_call_closes_breaker_witness :
  let b := mk_breaker 3 60 "STT" CLOSED 2 (Some 4) 0 in
  let b' := snd (fst (call b (mk_callable "probe" (answering "hello")) []
                        (at_time 5))) in
  state b' = CLOSED /\ failure_count b' = 0 /\ same_config b b'.
Proof.
  cbv zeta.
  eapply (successful_call_closes_breaker
            (mk_breaker 3 60 "STT" CLOSED 2 (Some 4) 0)
            (mk_callable "probe" (answering "hello")) [] (at_time 5)).
  reflexivity.
Defined.


(** ** retry_manager.py *)

Lemma invocations_backoff_trace : forall k name args delay multiplier,
  invocations (backoff_trace name args delay multiplier k) = k.
Proof.
  induction k as [| k IH]; intros name args delay multiplier; [reflexivity |].
  destruct k as [| k]; [reflexivity |].
  change (backoff_trace name args delay multiplier (S (S k)))
    with (EvInvoke name args :: EvSleep delay ::
          backoff_trace name args (delay * multiplier) multiplier (S k)).
  change (S (invocations
               (backoff_trace name args (delay * multiplier) multiplier (S k)))
          = S (S k)).
  rewrite IH. reflexivity.
Qed.

(** The suspensions of a retry run form a geometric sequence. *)
Lemma delays_backoff_trace : forall k name args delay multiplier,
  delays (backoff_trace name args delay multiplier k)
  = map (fun i => delay * multiplier ^ Z.of_nat i) (seq 0 (k - 1)).
Proof.
  induction k as [| k IH]; intros name args delay multiplier; [reflexivity |].
  destruct k as [| k]; [reflexivity |].
  change (backoff_trace name args delay multiplier (S (S k)))
    with (EvInvoke name args :: EvSleep delay ::
          backoff_trace name args (delay * multiplier) multiplier (S k)).
  cbn [delays]. rewrite IH.
  replace (S (S k) - 1)%nat with (S k) by lia.
  replace (S k - 1)%nat with k by lia.
  cbn [seq map]. f_equal; [cbn; lia |].
  rewrite <- seq_shift, map_map. apply map_ext. intros i.
  rewrite Nat2Z.inj_succ, Z.pow_succ_r by lia. ring.
Qed.

Section RetryMore.

Context {St : Type}.

Implicit Types (self : RetryManager) (w : World St) (args : list value).

Lemma time_sleep_inl : forall seconds w ve,
  time_sleep seconds w = inl ve ->
  seconds < 0 /\
  ve = new (Builtin "ValueError") "sleep length must be non-negative".
Proof.
  intros seconds w ve. unfold time_sleep.
  destruct (Z.ltb_spec seconds 0) as [Hneg | Hpos];
    intros Heq; inversion Heq; auto.
Qed.

(** The trace of a run of the loop on a function object, from any
    iteration that is still allowed. *)
Lemma retry_loop_shape : forall fuel self (f : callable St) args attempt
  current_delay w,
  attempt < max_attempts self ->
  (Z.to_nat (max_attempts self - attempt) <= fuel)%nat ->
  exists r w' k,
    retry_loop fuel self (plain f) args attempt current_delay tt w
    = Some (r, tt, w') /\
    (1 <= k)%nat /\ Z.of_nat k <= max_attempts self - attempt /\
    trace w' = trace w ++
               backoff_trace (c_name f) args current_delay
                             (backoff_multiplier self) k /\
    (forall e, r = Err e -> isinstance e TransientError = true ->
               Z.of_nat k = max_attempts self - attempt).
Proof.
  induction fuel as [| fuel IH];
    intros self f args attempt current_delay w Hlt Hfuel; [lia |].
  cbn [retry_loop].
  destruct (Z.ltb_spec attempt (max_attempts self)); [| lia].
  rewrite plain_invoke.
  destruct (invoke f args w) as [r0 w1] eqn:Hinv. cbn [fst snd].
  destruct (invoke_trace _ _ _ _ _ Hinv) as (Htr & _).
  assert (Hone : forall r1 : outcome,
    (forall e, r1 = Err e -> isinstance e TransientError = true ->
               1 = max_attempts self - attempt) ->
    exists (r : outcome) (w' : World St) (k : nat),
      Some (r1, tt, w1) = Some (r, tt, w') /\
      (1 <= k)%nat /\ Z.of_nat k <= max_attempts self - attempt /\
      trace w' = trace w ++
                 backoff_trace (c_name f) args current_delay
                               (backoff_multiplier self) k /\
      (forall e, r = Err e -> isinstance e TransientError = true ->
                 Z.of_nat k = max_attempts self - attempt)).
  { intros r1 Hr1. exists r1, w1, 1%nat.
    repeat split; auto; try lia. }
  destruct r0 as [v | e].
  { apply Hone. intros e He; discriminate. }
  destruct (isinstance e TransientError) eqn:HT.
  2:{ destruct (isinstance e PermanentError); apply Hone;
        intros e' He' HT'; inversion He'; subst; congruence. }
  destruct (Z.leb_spec (max_attempts self) (attempt + 1)).
  { apply Hone. intros; lia. }
  destruct (time_sleep current_delay w1) as [ve | w2] eqn:Hsl.
  { apply Hone. intros e' He' HT'. inversion He'; subst e'.
    destruct (time_sleep_inl _ _ _ Hsl) as [_ ->]. discriminate HT'. }
  destruct (time_sleep_inr _ _ _ Hsl) as (Htr2 & _).
  destruct (IH self f args (attempt + 1)
               (current_delay * backoff_multiplier self) w2)
    as (r & w' & k & Hrun & Hk1 & Hk2 & Htr3 & Hex); [lia | lia |].
  exists r, w', (S k). split; [exact Hrun |].
  split; [lia |]. split; [lia |]. split.
  - destruct k as [| k]; [lia |].
    change (backoff_trace (c_name f) args current_delay
                          (backoff_multiplier self) (S (S k)))
      with (EvInvoke (c_name f) args :: EvSleep current_delay ::
            backoff_trace (c_name f) args
              (current_delay * backoff_multiplier self)
              (backoff_multiplier self) (S k)).
    rewrite Htr3, Htr2, Htr, <- !app_assoc. reflexivity.
  - intros e' He' HT'. specialize (Hex e' He' HT'). lia.
Qed.

(** X8: with [max_attempts <= 0] the loop body never runs: the function
    is not called, nobody sleeps, and [execute_with_retry] returns [None]
    as if the call had succeeded. *)
Theorem no_attempt_returns_none :
  forall {A : Type} self (func : @closure St A) service_name args a w,
    max_attempts self <= 0 ->
    execute_with_retry self func service_name args a w = Some (Ok VNone, a, w).
Proof.
  intros A self func service_name args a w Hmax. unfold execute_with_retry.
  replace (Z.to_nat (max_attempts self)) with 0%nat by lia.
  cbn [retry_loop].
  destruct (Z.ltb_spec 0 (max_attempts self)); [lia | reflexivity].
Qed.

(** X9: the retry loop terminates for every retried function, a lambda
    that mutates captured objects included, and calls it at most
    [max_attempts] times.  The calls are counted by running the same loop
    on the function paired with a counter; the counter does not change the
    run. *)
Theorem retry_calls_are_bounded :
  forall {A : Type} self (func : @closure St A) service_name args a n w,
  exists r a' w' k,
    execute_with_retry self func service_name args a w = Some (r, a', w') /\
    execute_with_retry self (counted func) service_name args (a, n) w
    = Some (r, (a', (n + k)%nat), w') /\
    Z.of_nat k <= Z.max 0 (max_attempts self).
Proof.
  intros A self func service_name args a n w. unfold execute_with_retry.
  assert (Hloop : forall fuel attempt current_delay a n w,
    (Z.to_nat (max_attempts self - attempt) <= fuel)%nat ->
    exists r a' w' k,
      retry_loop fuel self func args attempt current_delay a w
      = Some (r, a', w') /\
      retry_loop fuel self (counted func) args attempt current_delay (a, n) w
      = Some (r, (a', (n + k)%nat), w') /\
      Z.of_nat k <= Z.max 0 (max_attempts self - attempt)).
  { clear a n w. induction fuel as [| fuel IH];
      intros attempt current_delay a n w Hfuel; cbn [retry_loop].
    - destruct (Z.ltb_spec attempt (max_attempts self)); [lia |].
      exists (Ok VNone), a, w, 0%nat. rewrite Nat.add_0_r.
      repeat split; lia.
    - destruct (Z.ltb_spec attempt (max_attempts self)).
      2:{ exists (Ok VNone), a, w, 0%nat. rewrite Nat.add_0_r.
          repeat split; lia. }
      unfold counted at 1. cbn [fst snd].
      destruct (func args a w) as [[r0 a1] w1].
      assert (Hone : forall r1 : outcome,
        exists (r : outcome) (a' : A) (w' : World St) (k : nat),
          Some (r1, a1, w1) = Some (r, a', w') /\
          Some (r1, (a1, S n), w1) = Some (r, (a', (n + k)%nat), w') /\
          Z.of_nat k <= Z.max 0 (max_attempts self - attempt)).
      { intros r1. exists r1, a1, w1, 1%nat.
        replace (n + 1)%nat with (S n) by lia. repeat split; lia. }
      destruct r0 as [v | e]; [apply Hone |].
      destruct (isinstance e TransientError);
        [| destruct (isinstance e PermanentError); apply Hone].
      destruct (Z.leb_spec (max_attempts self) (attempt + 1)); [apply Hone |].
      destruct (time_sleep current_delay w1) as [ve | w2]; [apply Hone |].
      destruct (IH (attempt + 1) (current_delay * backoff_multiplier self)
                   a1 (S n) w2) as (r & a' & w' & k & H1 & H2 & Hk); [lia |].
      exists r, a', w', (S k). split; [exact H1 |]. split.
      + rewrite H2. replace (n + S k)%nat with (S n + k)%nat by lia.
        reflexivity.
      + lia. }
  destruct (Hloop (Z.to_nat (max_attempts self)) 0 (initial_delay self) a n w)
    as (r & a' & w' & k & H1 & H2 & Hk); [lia |].
  exists r, a', w', k. rewrite Z.sub_0_r in Hk. auto.
Qed.

(** X10: a run on a function object with [max_attempts >= 1] leaves in
    the trace [k] invocations, [1 <= k <= max_attempts], with exactly one
    suspension between each two and none after the last; the suspensions
    are [initial_delay], [initial_delay * backoff_multiplier], ... in that
    order. *)
Theorem retry_trace_is_backoff :
  forall self (f : callable St) (service_name : string) args w,
    1 <= max_attempts self ->
    exists r w' k evs,
      execute_with_retry self (plain f) service_name args tt w
      = Some (r, tt, w') /\
      (1 <= k)%nat /\ Z.of_nat k <= max_attempts self /\
      trace w' = trace w ++ evs /\
      evs = backoff_trace (c_name f) args (initial_delay self)
                          (backoff_multiplier self) k /\
      invocations evs = k /\
      delays evs = map (fun i => initial_delay self
                                 * backoff_multiplier self ^ Z.of_nat i)
                       (seq 0 (k - 1)).
Proof.
  intros self f service_name args w Hmax. unfold execute_with_retry.
  destruct (retry_loop_shape (Z.to_nat (max_attempts self)) self f args 0
              (initial_delay self) w)
    as (r & w' & k & Hrun & Hk1 & Hk2 & Htr & _); [lia | lia |].
  eexists r, w', k, _. split; [exact Hrun |].
  split; [exact Hk1 |]. split; [lia |]. split; [exact Htr |].
  split; [reflexivity |].
  split; [apply invocations_backoff_trace | apply delays_backoff_trace].
Qed.

(** X11: a [TransientError] comes out of [execute_with_retry] only when
    the attempts are used up: the run that raises it has made exactly
    [max_attempts] invocations. *)
Theorem transient_error_means_exhausted :
  forall self (f : callable St) (service_name : string) args w e w',
    execute_with_retry self (plain f) service_name args tt w
    = Some (Err e, tt, w') ->
    isinstance e TransientError = true ->
    exists evs,
      trace w' = trace w ++ evs /\
      Z.of_nat (invocations evs) = max_attempts self.
Proof.
  intros self f service_name args w e w' Hrun HT.
  destruct (Z.le_gt_cases (max_attempts self) 0) as [Hle | Hgt].
  - unfold execute_with_retry in Hrun.
    replace (Z.to_nat (max_attempts self)) with 0%nat in Hrun by lia.
    cbn [retry_loop] in Hrun.
    destruct (Z.ltb_spec 0 (max_attempts self)); [lia | discriminate].
  - unfold execute_with_retry in Hrun.
    destruct (retry_loop_shape (Z.to_nat (max_attempts self)) self f args 0
                (initial_delay self) w)
      as (r & w1 & k & Hrun' & _ & _ & Htr & Hex); [lia | lia |].
    rewrite Hrun' in Hrun. inversion Hrun; subst r w1.
    eexists. split; [exact Htr |].
    rewrite invocations_backoff_trace, (Hex e eq_refl HT). lia.
Qed.

(** X12: a function that raises a [TransientError] once and returns on
    the second call: with at least two attempts allowed and a delay that
    [time.sleep] accepts, the executor sleeps [initial_delay] once, calls
    again and returns that result; no further attempt is made. *)
Theorem retry_recovers_on_second_attempt :
  forall {A : Type} self (func : @closure St A) service_name args
         a w e a1 w1 s1 v a2 w2,
    2 <= max_attempts self ->
    func args a w = (Err e, a1, w1) ->
    isinstance e TransientError = true ->
    time_sleep (initial_delay self) w1 = inr s1 ->
    func args a1 s1 = (Ok v, a2, w2) ->
    execute_with_retry self func service_name args a w = Some (Ok v, a2, w2).
Proof.
  intros A self func service_name args a w e a1 w1 s1 v a2 w2
         Hmax H1 HT Hsl H2.
  unfold execute_with_retry.
  destruct (Z.to_nat (max_attempts self)) as [| [| fuel]] eqn:Hfuel;
    [lia | lia |].
  assert (L : 0 + 1 < max_attempts self) by lia.
  rewrite (retry_loop_transient_again _ _ _ _ _ _ _ _ _ _ _ _ H1 HT L Hsl).
  cbn [retry_loop].
  destruct (Z.ltb_spec (0 + 1) (max_attempts self)); [| lia].
  rewrite H2. reflexivity.
Qed.

(** X13: with a negative [initial_delay], a first [TransientError] is not
    retried: [time.sleep] raises ValueError inside the handler, and that
    error, not the service's, reaches the caller, after a single call. *)
Theorem negative_delay_raises_value_error :
  forall {A : Type} self (func : @closure St A) service_name args
         a w e a1 w1,
    2 <= max_attempts self ->
    initial_delay self < 0 ->
    func args a w = (Err e, a1, w1) ->
    isinstance e TransientError = true ->
    execute_with_retry self func service_name args a w
    = Some (Err (new (Builtin "ValueError")
                     "sleep length must be non-negative"), a1, w1).
Proof.
  intros A self func service_name args a w e a1 w1 Hmax Hneg H1 HT.
  unfold execute_with_retry.
  destruct (Z.to_nat (max_attempts self)) as [| fuel] eqn:Hfuel; [lia |].
  cbn [retry_loop].
  destruct (Z.ltb_spec 0 (max_attempts self)); [| lia].
  rewrite H1, HT.
  destruct (Z.leb_spec (max_attempts self) (0 + 1)); [lia |].
  unfold time_sleep.
  destruct (Z.ltb_spec (initial_delay self) 0); [reflexivity | lia].
Qed.

End RetryMore.

Lemma no_attempt_returns_none_witness :
  execute_with_retry (retry_manager.__init__ 5 2 0)
    (plain (mk_callable "probe" timing_out)) "STT" [] tt w0
  = Some (Ok VNone, tt, w0).
Proof.
  apply (no_attempt_returns_none (retry_manager.__init__ 5 2 0)
           (plain (mk_callable "probe" timing_out)) "STT" [] tt w0).
  simpl. lia.
Defined.

Lemma retry_trace_is_backoff_witness :
  let self := retry_manager.__init__ 5 2 3 in
  let probe := mk_callable "probe" timing_out in
  exists r w' k evs,
    execute_with_retry self (plain probe) "STT" [] tt w0 = Some (r, tt, w') /\
    (1 <= k)%nat /\ Z.of_nat k <= 3 /\
    trace w' = trace w0 ++ evs /\
    evs = backoff_trace "probe" [] 5 2 k /\
    invocations evs = k /\
    delays evs = map (fun i => 5 * 2 ^ Z.of_nat i) (seq 0 (k - 1)).
Proof.
  cbv zeta.
  apply (retry_trace_is_backoff (retry_manager.__init__ 5 2 3)
           (mk_callable "probe" timing_out) "STT" [] w0).
  simpl. lia.
Defined.

Lemma transient_error_means_exhausted_witness :
  let w' := mk_world (mk_env 18 tt)
              [EvInvoke "probe" []; EvSleep 5; EvInvoke "probe" [];
               EvSleep 10; EvInvoke "probe" []] [] [] in
  exists evs,
    trace w' = trace w0 ++ evs /\ Z.of_nat (invocations evs) = 3.
Proof.
  cbv zeta.
  apply (transient_error_means_exhausted (retry_manager.__init__ 5 2 3)
           (mk_callable "probe" timing_out) "STT" [] w0
           (mk_exn TimeoutError "service timeout" (Some "STT"%string))).
  - vm_compute. reflexivity.
  - reflexivity.
Defined.

Lemma retry_recovers_on_second_attempt_witness :
  execute_with_retry (retry_manager.__init__ 5 2 3)
    (plain (mk_callable "probe" recovering)) "STT" [] tt start
  = Some (Ok (VStr "text"), tt,
          mk_world (mk_env 7 2%nat)
            [EvInvoke "probe" []; EvSleep 5; EvInvoke "probe" []] [] []).
Proof.
  eapply (retry_recovers_on_second_attempt (retry_manager.__init__ 5 2 3)
            (plain (mk_callable "probe" recovering)) "STT" [] tt start).
  - simpl. lia.
  - reflexivity.
  - reflexivity.
  - reflexivity.
  - reflexivity.
Defined.

Lemma negative_delay_raises_value_error_witness :
  execute_with_retry hasty (plain (mk_callable "probe" timing_out))
    "STT" [] tt w0
  = Some (Err (new (Builtin "ValueError") "sleep length must be non-negative"),
          tt, snd (invoke (mk_callable "probe" timing_out) [] w0)).
Proof.
  eapply (negative_delay_raises_value_error hasty
            (plain (mk_callable "probe" timing_out)) "STT" [] tt w0).
  - simpl. lia.
  - simpl. lia.
  - reflexivity.
  - reflexivity.
Defined.

(** ** call_agent.py *)

Section LoopFacts.

Context {St A : Type}.

Implicit Types (func : @closure St A) (rm : RetryManager) (w : World St).

(** What every call of the retried function preserves, the loop
    preserves. *)
Lemma retry_loop_rel : forall (R : A -> A -> Prop) func rm,
  (forall a, R a a) ->
  (forall a b c, R a b -> R b c -> R a c) ->
  (forall args a w r a1 w1, func args a w = (r, a1, w1) -> R a a1) ->
  forall fuel args attempt current_delay a w r a' w',
    retry_loop fuel rm func args attempt current_delay a w = Some (r, a', w') ->
    R a a'.
Proof.
  intros R func rm Hrefl Htrans Hfunc. induction fuel as [| fuel IH];
    intros args attempt current_delay a w r a' w'; cbn [retry_loop];
    destruct (attempt <? max_attempts rm);
    try (intros H; inversion H; subst; apply Hrefl); try discriminate.
  destruct (func args a w) as [[[v | e] a1] w1] eqn:Hf;
    pose proof (Hfunc _ _ _ _ _ _ Hf) as Hq.
  - intros H; inversion H; subst; exact Hq.
  - destruct (isinstance e TransientError).
    + destruct (max_attempts rm <=? attempt + 1).
      * intros H; inversion H; subst; exact Hq.
      * destruct (time_sleep current_delay w1) as [ve | w2].
        -- intros H; inversion H; subst; exact Hq.
        -- intros H. apply IH in H. exact (Htrans _ _ _ Hq H).
    + destruct (isinstance e PermanentError);
        intros H; inversion H; subst; exact Hq.
Qed.

(** The state the loop returns is the one left by a call of the retried
    function: by one that returned, when the loop returns a value. *)
Lemma retry_loop_last_call : forall (Pok Perr : A -> Prop) func rm,
  (forall args a w v a1 w1, func args a w = (Ok v, a1, w1) -> Pok a1) ->
  (forall args a w e a1 w1, func args a w = (Err e, a1, w1) -> Perr a1) ->
  forall fuel args attempt current_delay a w r a' w',
    attempt < max_attempts rm ->
    retry_loop fuel rm func args attempt current_delay a w = Some (r, a', w') ->
    match r with
    | Ok _ => Pok a'
    | Err _ => Perr a'
    end.
Proof.
  intros Pok Perr func rm Hok Herr. induction fuel as [| fuel IH];
    intros args attempt current_delay a w r a' w' Hlt; cbn [retry_loop];
    destruct (Z.ltb_spec attempt (max_attempts rm)) as [Hin | Hout]; try lia;
    try discriminate.
  destruct (func args a w) as [[[v | e] a1] w1] eqn:Hf.
  - intros H; inversion H; subst. eapply Hok; eauto.
  - pose proof (Herr _ _ _ _ _ _ Hf) as Hq.
    destruct (isinstance e TransientError).
    + destruct (Z.leb_spec (max_attempts rm) (attempt + 1)) as [Hlast | Hmore].
      * intros H; inversion H; subst; exact Hq.
      * destruct (time_sleep current_delay w1) as [ve | w2].
        -- intros H; inversion H; subst; exact Hq.
        -- intros H. eapply IH; [| exact H]. lia.
    + destruct (isinstance e PermanentError);
        intros H; inversion H; subst; exact Hq.
Qed.

(** If a call of the retried function invokes at most once and never
    sleeps, the loop invokes at most once per attempt and sleeps only
    between attempts. *)
Lemma retry_loop_work : forall func rm,
  (forall args a w r a1 w1, func args a w = (r, a1, w1) ->
     exists evs, trace w1 = trace w ++ evs /\
                 (invocations evs <= 1)%nat /\ delays evs = []) ->
  forall fuel args attempt current_delay a w r a' w',
    retry_loop fuel rm func args attempt current_delay a w = Some (r, a', w') ->
    exists evs,
      trace w' = trace w ++ evs /\
      Z.of_nat (invocations evs) <= Z.max 0 (max_attempts rm - attempt) /\
      Z.of_nat (length (delays evs))
      <= Z.max 0 (max_attempts rm - attempt - 1).
Proof.
  intros func rm Hfunc. induction fuel as [| fuel IH];
    intros args attempt current_delay a w r a' w'; cbn [retry_loop];
    destruct (Z.ltb_spec attempt (max_attempts rm)) as [Hin | Hout];
    try (intros H; inversion H; subst; exists [];
         rewrite app_nil_r; simpl; repeat split; lia);
    try discriminate.
  destruct (func args a w) as [[r0 a1] w1] eqn:Hf.
  destruct (Hfunc _ _ _ _ _ _ Hf) as (evs1 & Ht1 & Hi1 & Hd1).
  assert (Hone : exists evs,
             trace w1 = trace w ++ evs /\
             Z.of_nat (invocations evs) <= Z.max 0 (max_attempts rm - attempt) /\
             Z.of_nat (length (delays evs))
             <= Z.max 0 (max_attempts rm - attempt - 1)).
  { exists evs1. rewrite Hd1. simpl. repeat split; auto; lia. }
  destruct r0 as [v | e]; [intros H; inversion H; subst; exact Hone |].
  destruct (isinstance e TransientError).
  2:{ destruct (isinstance e PermanentError);
        intros H; inversion H; subst; exact Hone. }
  destruct (Z.leb_spec (max_attempts rm) (attempt + 1)) as [Hlast | Hmore];
    [intros H; inversion H; subst; exact Hone |].
  destruct (time_sleep current_delay w1) as [ve | w2] eqn:Hsl;
    [intros H; inversion H; subst; exact Hone |].
  destruct (time_sleep_inr _ _ _ Hsl) as (Ht2 & _).
  intros H. destruct (IH _ _ _ _ _ _ _ _ H) as (evs3 & Ht3 & Hi3 & Hd3).
  exists (evs1 ++ [EvSleep current_delay] ++ evs3). split.
  - rewrite Ht3, Ht2, Ht1, <- !app_assoc. reflexivity.
  - rewrite !invocations_app, !delays_app, !length_app, Hd1. simpl.
    change (invocations [EvSleep current_delay]) with 0%nat. lia.
Qed.

(** A first call that returns ends the run. *)
Lemma retry_first_success : forall func rm service_name args a w v a1 w1,
  1 <= max_attempts rm ->
  func args a w = (Ok v, a1, w1) ->
  execute_with_retry rm func service_name args a w = Some (Ok v, a1, w1).
Proof.
  intros func rm service_name args a w v a1 w1 Hmax Hf.
  unfold execute_with_retry.
  destruct (Z.to_nat (max_attempts rm)) as [| fuel] eqn:Hfuel; [lia |].
  cbn [retry_loop].
  destruct (Z.ltb_spec 0 (max_attempts rm)) as [Hin | Hout]; [| lia].
  rewrite Hf. reflexivity.
Qed.

End LoopFacts.

Section AgentMore.

Context {St : Type}.

Implicit Types (self : CallAgent St) (w : World St).

Lemma call_same_config : forall b (func : callable St) args w r b' w',
  call b func args w = (r, b', w') -> same_config b b'.
Proof.
  intros b func args w r b' w' Hcall.
  destruct (call_cases b func args w)
    as [[_ Hrej] | (half & _ & Hno & Hcfg & _ & _ & _ & _ & Hatt)].
  - rewrite Hrej in Hcall. inversion Hcall; subst. apply same_config_refl.
  - rewrite Hatt in Hcall. unfold attempt in Hcall.
    destruct (invoke func args w) as [[v0 | e0] w0];
      inversion Hcall; subst r b' w'.
    + destruct (on_success_closes half Hno) as (_ & _ & C & _).
      exact (same_config_trans _ _ _ Hcfg C).
    + destruct (on_failure_facts half w0) as (_ & _ & C & _).
      exact (same_config_trans _ _ _ Hcfg C).
Qed.

(** What a call does to the trace: nothing, or one invocation. *)
Lemma call_work : forall b (func : callable St) args w r b' w',
  call b func args w = (r, b', w') ->
  exists evs, trace w' = trace w ++ evs /\
              (invocations evs <= 1)%nat /\ delays evs = [].
Proof.
  intros b func args w r b' w' Hcall.
  destruct (call_cases b func args w)
    as [[_ Hrej] | (half & _ & _ & _ & _ & _ & _ & _ & Hatt)].
  - rewrite Hrej in Hcall. inversion Hcall; subst.
    exists []. rewrite app_nil_r. auto.
  - rewrite Hatt in Hcall. unfold attempt in Hcall.
    destruct (invoke func args w) as [r0 w0] eqn:Hinv.
    destruct (invoke_trace _ _ _ _ _ Hinv) as (Htr & _).
    exists [EvInvoke (c_name func) args].
    destruct r0; inversion Hcall; subst; auto.
Qed.

Lemma touches_only_refl : forall mine other1 other2 self,
  touches_only mine other1 other2 self self.
Proof.
  intros. unfold touches_only.
  repeat (split; [reflexivity |]).
  split; [apply same_config_refl | auto].
Qed.

Lemma touches_only_trans : forall mine other1 other2 self1 self2 self3,
  touches_only mine other1 other2 self1 self2 ->
  touches_only mine other1 other2 self2 self3 ->
  touches_only mine other1 other2 self1 self3.
Proof.
  unfold touches_only.
  intros mine other1 other2 s1 s2 s3
         (A1 & B1 & C1 & D1 & E1 & F1 & G1 & H1)
         (A2 & B2 & C2 & D2 & E2 & F2 & G2 & H2).
  repeat (split; [congruence |]).
  split; [exact (same_config_trans _ _ _ G1 G2) | auto].
Qed.

Lemma stt_lambda_touches : forall input args self w r self1 w1,
  stt_lambda input args self w = (r, self1, w1) ->
  touches_only stt_breaker llm_breaker tts_breaker self self1.
Proof.
  intros input args self w r self1 w1. unfold stt_lambda.
  destruct (call (stt_breaker self) (transcribe self) [input] w)
    as [[r0 b] w0] eqn:Hc.
  intros H; inversion H; subst. unfold touches_only. simpl.
  repeat (split; [reflexivity |]).
  split; [exact (call_same_config _ _ _ _ _ _ _ Hc) |].
  intros Hs. exact (proj1 (call_settled _ _ _ _ _ _ _ Hs Hc)).
Qed.

Lemma llm_lambda_touches : forall input args self w r self1 w1,
  llm_lambda input args self w = (r, self1, w1) ->
  touches_only llm_breaker stt_breaker tts_breaker self self1.
Proof.
  intros input args self w r self1 w1. unfold llm_lambda.
  destruct (call (llm_breaker self) (generate_response self) [input] w)
    as [[r0 b] w0] eqn:Hc.
  intros H; inversion H; subst. unfold touches_only. simpl.
  repeat (split; [reflexivity |]).
  split; [exact (call_same_config _ _ _ _ _ _ _ Hc) |].
  intros Hs. exact (proj1 (call_settled _ _ _ _ _ _ _ Hs Hc)).
Qed.

Lemma tts_lambda_touches : forall input args self w r self1 w1,
  tts_lambda input args self w = (r, self1, w1) ->
  touches_only tts_breaker stt_breaker llm_breaker self self1.
Proof.
  intros input args self w r self1 w1. unfold tts_lambda.
  destruct (call (tts_breaker self) (synthesize self) [input] w)
    as [[r0 b] w0] eqn:Hc.
  intros H; inversion H; subst. unfold touches_only. simpl.
  repeat (split; [reflexivity |]).
  split; [exact (call_same_config _ _ _ _ _ _ _ Hc) |].
  intros Hs. exact (proj1 (call_settled _ _ _ _ _ _ _ Hs Hc)).
Qed.

(** The agent a stage returns is the one its retry run returned, and the
    reports leave the trace alone. *)
Lemma stage_call_result : forall (lam : @closure St (CallAgent St)) name
  breaker self w r self1 w1,
  stage_call lam name breaker self w = Some (r, self1, w1) ->
  exists w0,
    execute_with_retry (retry_manager self) lam name [] self w
    = Some (r, self1, w0) /\
    trace w1 = trace w0.
Proof.
  intros lam name breaker self w r self1 w1. unfold stage_call.
  destruct (execute_with_retry (retry_manager self) lam name [] self w)
    as [[[[v | e] s0] w0] |]; [| | discriminate].
  - intros H; inversion H; subst. eauto.
  - destruct (isinstance e TransientError);
      [| destruct (isinstance e PermanentError)];
      intros H; inversion H; subst; eauto.
Qed.

Lemma stage_call_touches : forall mine other1 other2
  (lam : @closure St (CallAgent St)) name breaker self w r self1 w1,
  (forall args a w0 r0 a1 w2, lam args a w0 = (r0, a1, w2) ->
                              touches_only mine other1 other2 a a1) ->
  stage_call lam name breaker self w = Some (r, self1, w1) ->
  touches_only mine other1 other2 self self1.
Proof.
  intros mine other1 other2 lam name breaker self w r self1 w1 Hlam Hst.
  destruct (stage_call_result _ _ _ _ _ _ _ _ Hst) as (w0 & Hrun & _).
  unfold execute_with_retry in Hrun.
  exact (retry_loop_rel (touches_only mine other1 other2) lam _
           (touches_only_refl _ _ _) (touches_only_trans _ _ _) Hlam
           _ _ _ _ _ _ _ _ _ Hrun).
Qed.


End AgentMore.

Section PipelineMore.

Context {St : Type}.

Implicit Types (self : CallAgent St) (w : World St).

Lemma _call_stt_service_touches : forall self input w r self1 w1,
  _call_stt_service self input w = Some (r, self1, w1) ->
  touches_only stt_breaker llm_breaker tts_breaker self self1.
Proof.
  intros self input w r self1 w1 H. rewrite _call_stt_service_shape in H.
  exact (stage_call_touches _ _ _ _ _ _ _ _ _ _ _ (stt_lambda_touches input) H).
Qed.

Lemma _call_llm_service_touches : forall self input w r self1 w1,
  _call_llm_service self input w = Some (r, self1, w1) ->
  touches_only llm_breaker stt_breaker tts_breaker self self1.
Proof.
  intros self input w r self1 w1 H. rewrite _call_llm_service_shape in H.
  exact (stage_call_touches _ _ _ _ _ _ _ _ _ _ _ (llm_lambda_touches input) H).
Qed.

Lemma _call_tts_service_touches : forall self input w r self1 w1,
  _call_tts_service self input w = Some (r, self1, w1) ->
  touches_only tts_breaker stt_breaker llm_breaker self self1.
Proof.
  intros self input w r self1 w1 H. rewrite _call_tts_service_shape in H.
  exact (stage_call_touches _ _ _ _ _ _ _ _ _ _ _ (tts_lambda_touches input) H).
Qed.

Lemma same_setup_refl : forall self, same_setup self self.
Proof.
  intros self. unfold same_setup.
  repeat (split; [reflexivity |]).
  repeat split.
Qed.

Lemma same_setup_trans : forall self1 self2 self3,
  same_setup self1 self2 -> same_setup self2 self3 -> same_setup self1 self3.
Proof.
  unfold same_setup.
  intros s1 s2 s3 (A1 & B1 & C1 & D1 & E1 & F1 & G1)
         (A2 & B2 & C2 & D2 & E2 & F2 & G2).
  repeat (split; [congruence |]).
  split; [exact (same_config_trans _ _ _ E1 E2) |].
  split; [exact (same_config_trans _ _ _ F1 F2) |].
  exact (same_config_trans _ _ _ G1 G2).
Qed.

Lemma touches_stt_setup : forall self self',
  touches_only stt_breaker llm_breaker tts_breaker self self' ->
  same_setup self self' /\ (agent_settled self -> agent_settled self').
Proof.
  unfold touches_only, same_setup, agent_settled.
  intros self self' (A & B & C & D & E & F & G & H).
  rewrite E, F. split.
  - repeat (split; [assumption |]).
    split; apply same_config_refl.
  - intros (S1 & S2 & S3). auto.
Qed.

Lemma touches_llm_setup : forall self self',
  touches_only llm_breaker stt_breaker tts_breaker self self' ->
  same_setup self self' /\ (agent_settled self -> agent_settled self').
Proof.
  unfold touches_only, same_setup, agent_settled.
  intros self self' (A & B & C & D & E & F & G & H).
  rewrite E, F. split.
  - repeat (split; [assumption |]).
    split; [apply same_config_refl |].
    split; [exact G | apply same_config_refl].
  - intros (S1 & S2 & S3). auto.
Qed.

Lemma touches_tts_setup : forall self self',
  touches_only tts_breaker stt_breaker llm_breaker self self' ->
  same_setup self self' /\ (agent_settled self -> agent_settled self').
Proof.
  unfold touches_only, same_setup, agent_settled.
  intros self self' (A & B & C & D & E & F & G & H).
  rewrite E, F. split.
  - repeat (split; [assumption |]).
    split; [apply same_config_refl |].
    split; [apply same_config_refl | exact G].
  - intros (S1 & S2 & S3). auto.
Qed.

(** One pipeline invocation keeps the agent's setup and keeps it
    settled. *)
Lemma process_call_setup : forall self audio_input w,
  exists v self' w',
    process_call self audio_input w = Some (v, self', w') /\
    same_setup self self' /\
    (agent_settled self -> agent_settled self').
Proof.
  intros self audio_input w. unfold process_call, process_call_try.
  destruct (_call_stt_service_spec self audio_input w)
    as (r1 & s1 & w1 & H1 & _).
  destruct (touches_stt_setup _ _ (_call_stt_service_touches _ _ _ _ _ _ H1))
    as [U1 V1].
  rewrite H1. destruct r1 as [text | e1];
    [| exists VNone, s1, w1; split; [reflexivity | split; assumption]].
  destruct (_call_llm_service_spec s1 text w1) as (r2 & s2 & w2 & H2 & _).
  destruct (touches_llm_setup _ _ (_call_llm_service_touches _ _ _ _ _ _ H2))
    as [U2 V2].
  pose proof (same_setup_trans _ _ _ U1 U2) as U12.
  rewrite H2. destruct r2 as [response | e2];
    [| exists VNone, s2, w2; split; [reflexivity | split; auto]].
  destruct (_call_tts_service_spec s2 response w2) as (r3 & s3 & w3 & H3 & _).
  destruct (touches_tts_setup _ _ (_call_tts_service_touches _ _ _ _ _ _ H3))
    as [U3 V3].
  pose proof (same_setup_trans _ _ _ U12 U3) as U123.
  rewrite H3.
  destruct r3 as [audio_output | e3];
    [exists audio_output, s3, w3 | exists VNone, s3, w3];
    (split; [reflexivity | split; auto]).
Qed.

Lemma settled_state_value : forall b,
  settled b ->
  snap_state (get_state b) = "CLOSED"%string \/
  snap_state (get_state b) = "OPEN"%string.
Proof.
  intros b (_ & Hnh & _). unfold get_state. simpl.
  destruct (state b); simpl; auto. congruence.
Qed.


End PipelineMore.

Section PipelineRuns.

Context {St : Type}.

Implicit Types (self : CallAgent St) (w : World St).

Lemma call_ok_closed : forall b (func : callable St) args w v b' w',
  call b func args w = (Ok v, b', w') ->
  state b' = CLOSED /\ failure_count b' = 0.
Proof.
  intros b func args w v b' w' H.
  destruct (call_cases b func args w)
    as [[_ Hrej] | (half & _ & Hno & _ & _ & _ & _ & _ & Hatt)].
  - rewrite Hrej in H. discriminate.
  - rewrite Hatt in H. unfold attempt in H.
    destruct (invoke func args w) as [[v0 | e0] w0]; inversion H; subst.
    destruct (on_success_closes half Hno) as (A & B & _). auto.
Qed.

(** A stage that returns a value returns the agent as a returning call
    of its lambda left it. *)
Lemma stage_call_ok : forall (P : CallAgent St -> Prop)
  (lam : @closure St (CallAgent St)) name breaker self w v self1 w1,
  1 <= max_attempts (retry_manager self) ->
  (forall args a w0 v0 a1 w2, lam args a w0 = (Ok v0, a1, w2) -> P a1) ->
  stage_call lam name breaker self w = Some (Ok v, self1, w1) ->
  P self1.
Proof.
  intros P lam name breaker self w v self1 w1 Hmax Hlam Hst.
  destruct (stage_call_result _ _ _ _ _ _ _ _ Hst) as (w0 & Hrun & _).
  unfold execute_with_retry in Hrun.
  assert (L : 0 < max_attempts (retry_manager self)) by lia.
  exact (retry_loop_last_call P (fun _ => True) lam _ Hlam
           (fun _ _ _ _ _ _ _ => I) _ _ _ _ _ _ _ _ _ L Hrun).
Qed.

Lemma stage_call_work : forall (lam : @closure St (CallAgent St)) name
  breaker self w r self1 w1,
  (forall args a w0 r0 a1 w2, lam args a w0 = (r0, a1, w2) ->
     exists evs, trace w2 = trace w0 ++ evs /\
                 (invocations evs <= 1)%nat /\ delays evs = []) ->
  stage_call lam name breaker self w = Some (r, self1, w1) ->
  exists evs,
    trace w1 = trace w ++ evs /\
    Z.of_nat (invocations evs) <= Z.max 0 (max_attempts (retry_manager self)) /\
    Z.of_nat (length (delays evs))
    <= Z.max 0 (max_attempts (retry_manager self) - 1).
Proof.
  intros lam name breaker self w r self1 w1 Hlam Hst.
  destruct (stage_call_result _ _ _ _ _ _ _ _ Hst) as (w0 & Hrun & Htr).
  unfold execute_with_retry in Hrun.
  destruct (retry_loop_work lam _ Hlam _ _ _ _ _ _ _ _ _ Hrun)
    as (evs & Ht & Hi & Hd).
  exists evs. rewrite Htr. rewrite Z.sub_0_r in Hi, Hd. auto.
Qed.

Lemma stt_lambda_work : forall input args self w r self1 w1,
  stt_lambda input args self w = (r, self1, w1) ->
  exists evs, trace w1 = trace w ++ evs /\
              (invocations evs <= 1)%nat /\ delays evs = [].
Proof.
  intros input args self w r self1 w1. unfold stt_lambda.
  destruct (call (stt_breaker self) (transcribe self) [input] w)
    as [[r0 b] w0] eqn:Hc.
  intros H; inversion H; subst. exact (call_work _ _ _ _ _ _ _ Hc).
Qed.

Lemma llm_lambda_work : forall input args self w r self1 w1,
  llm_lambda input args self w = (r, self1, w1) ->
  exists evs, trace w1 = trace w ++ evs /\
              (invocations evs <= 1)%nat /\ delays evs = [].
Proof.
  intros input args self w r self1 w1. unfold llm_lambda.
  destruct (call (llm_breaker self) (generate_response self) [input] w)
    as [[r0 b] w0] eqn:Hc.
  intros H; inversion H; subst. exact (call_work _ _ _ _ _ _ _ Hc).
Qed.

Lemma tts_lambda_work : forall input args self w r self1 w1,
  tts_lambda input args self w = (r, self1, w1) ->
  exists evs, trace w1 = trace w ++ evs /\
              (invocations evs <= 1)%nat /\ delays evs = [].
Proof.
  intros input args self w r self1 w1. unfold tts_lambda.
  destruct (call (tts_breaker self) (synthesize self) [input] w)
    as [[r0 b] w0] eqn:Hc.
  intros H; inversion H; subst. exact (call_work _ _ _ _ _ _ _ Hc).
Qed.

(** X17: one pipeline invocation calls the services at most
    [3 * max_attempts] times in all and sleeps at most
    [3 * (max_attempts - 1)] times: at most 9 calls and 6 sleeps with the
    policy [__init__] sets. *)
Theorem pipeline_work_is_bounded :
  forall self audio_input w,
  exists v self' w' evs,
    process_call self audio_input w = Some (v, self', w') /\
    trace w' = trace w ++ evs /\
    Z.of_nat (invocations evs)
    <= 3 * Z.max 0 (max_attempts (retry_manager self)) /\
    Z.of_nat (length (delays evs))
    <= 3 * Z.max 0 (max_attempts (retry_manager self) - 1).
Proof.
  intros self audio_input w. unfold process_call, process_call_try.
  set (N := max_attempts (retry_manager self)).
  destruct (_call_stt_service_spec self audio_input w)
    as (r1 & s1 & w1 & H1 & _).
  pose proof (_call_stt_service_touches _ _ _ _ _ _ H1)
    as (_ & _ & _ & R1 & _).
  pose proof H1 as K1. rewrite _call_stt_service_shape in K1.
  destruct (stage_call_work _ _ _ _ _ _ _ _ (stt_lambda_work audio_input) K1)
    as (evs1 & T1 & I1 & D1). fold N in I1, D1.
  rewrite H1. destruct r1 as [text | e1].
  2:{ exists VNone, s1, w1, evs1. repeat split; auto; lia. }
  destruct (_call_llm_service_spec s1 text w1) as (r2 & s2 & w2 & H2 & _).
  pose proof (_call_llm_service_touches _ _ _ _ _ _ H2)
    as (_ & _ & _ & R2 & _).
  pose proof H2 as K2. rewrite _call_llm_service_shape in K2.
  destruct (stage_call_work _ _ _ _ _ _ _ _ (llm_lambda_work text) K2)
    as (evs2 & T2 & I2 & D2). rewrite R1 in I2, D2. fold N in I2, D2.
  rewrite H2. destruct r2 as [response | e2].
  2:{ exists VNone, s2, w2, (evs1 ++ evs2). split; [reflexivity |].
      split; [rewrite T2, T1, app_assoc; reflexivity |].
      rewrite invocations_app, delays_app, length_app. lia. }
  destruct (_call_tts_service_spec s2 response w2) as (r3 & s3 & w3 & H3 & _).
  pose proof H3 as K3. rewrite _call_tts_service_shape in K3.
  destruct (stage_call_work _ _ _ _ _ _ _ _ (tts_lambda_work response) K3)
    as (evs3 & T3 & I3 & D3). rewrite R2, R1 in I3, D3. fold N in I3, D3.
  rewrite H3.
  assert (Hall : trace w3 = trace w ++ (evs1 ++ evs2 ++ evs3) /\
                 Z.of_nat (invocations (evs1 ++ evs2 ++ evs3))
                 <= 3 * Z.max 0 N /\
                 Z.of_nat (length (delays (evs1 ++ evs2 ++ evs3)))
                 <= 3 * Z.max 0 (N - 1)).
  { split; [rewrite T3, T2, T1, <- !app_assoc; reflexivity |].
    rewrite !invocations_app, !delays_app, !length_app. lia. }
  destruct r3 as [audio_output | e3];
    [exists audio_output, s3, w3, (evs1 ++ evs2 ++ evs3)
    | exists VNone, s3, w3, (evs1 ++ evs2 ++ evs3)];
    (split; [reflexivity | exact Hall]).
Qed.

(** X16: when a pipeline invocation succeeds (with at least one attempt
    allowed), it leaves each of the three breakers CLOSED with failure
    count 0, whatever their states were before. *)
Theorem successful_pipeline_closes_breakers :
  forall self audio_input w v self' w',
    1 <= max_attempts (retry_manager self) ->
    process_call_try self audio_input w = Some (Ok v, self', w') ->
    (state (stt_breaker self') = CLOSED /\ failure_count (stt_breaker self') = 0) /\
    (state (llm_breaker self') = CLOSED /\ failure_count (llm_breaker self') = 0) /\
    (state (tts_breaker self') = CLOSED /\ failure_count (tts_breaker self') = 0).
Proof.
  intros self audio_input w v self' w' Hmax. unfold process_call_try.
  destruct (_call_stt_service self audio_input w)
    as [[[[text | e1] s1] w1] |] eqn:H1; try discriminate.
  destruct (_call_llm_service s1 text w1)
    as [[[[response | e2] s2] w2] |] eqn:H2; try discriminate.
  destruct (_call_tts_service s2 response w2)
    as [[[[audio_output | e3] s3] w3] |] eqn:H3; try discriminate.
  intros H; inversion H; subst v self' w'.
  pose proof (_call_stt_service_touches _ _ _ _ _ _ H1)
    as (_ & _ & _ & R1 & _).
  pose proof (_call_llm_service_touches _ _ _ _ _ _ H2)
    as (_ & _ & _ & R2 & E2 & _).
  pose proof (_call_tts_service_touches _ _ _ _ _ _ H3)
    as (_ & _ & _ & _ & E3 & F3 & _).
  rewrite _call_stt_service_shape in H1.
  rewrite _call_llm_service_shape in H2.
  rewrite _call_tts_service_shape in H3.
  assert (C1 : state (stt_breaker s1) = CLOSED /\ failure_count (stt_breaker s1) = 0).
  { refine (stage_call_ok
              (fun a => state (stt_breaker a) = CLOSED /\
                        failure_count (stt_breaker a) = 0)
              _ _ _ _ _ _ _ _ Hmax _ H1).
    intros args a w0 v0 a1 w4. unfold stt_lambda.
    destruct (call (stt_breaker a) (transcribe a) [audio_input] w0)
      as [[r0 b] w5] eqn:Hc.
    intros Heq; inversion Heq; subst. simpl.
    exact (call_ok_closed _ _ _ _ _ _ _ Hc). }
  assert (C2 : state (llm_breaker s2) = CLOSED /\ failure_count (llm_breaker s2) = 0).
  { refine (stage_call_ok
              (fun a => state (llm_breaker a) = CLOSED /\
                        failure_count (llm_breaker a) = 0)
              _ _ _ _ _ _ _ _ _ _ H2); [rewrite R1; exact Hmax |].
    intros args a w0 v0 a1 w4. unfold llm_lambda.
    destruct (call (llm_breaker a) (generate_response a) [text] w0)
      as [[r0 b] w5] eqn:Hc.
    intros Heq; inversion Heq; subst. simpl.
    exact (call_ok_closed _ _ _ _ _ _ _ Hc). }
  assert (C3 : state (tts_breaker s3) = CLOSED /\ failure_count (tts_breaker s3) = 0).
  { refine (stage_call_ok
              (fun a => state (tts_breaker a) = CLOSED /\
                        failure_count (tts_breaker a) = 0)
              _ _ _ _ _ _ _ _ _ _ H3); [rewrite R2, R1; exact Hmax |].
    intros args a w0 v0 a1 w4. unfold tts_lambda.
    destruct (call (tts_breaker a) (synthesize a) [response] w0)
      as [[r0 b] w5] eqn:Hc.
    intros Heq; inversion Heq; subst. simpl.
    exact (call_ok_closed _ _ _ _ _ _ _ Hc). }
  rewrite E3, E2, F3. auto.
Qed.

End PipelineRuns.

Section HappyPath.

Context {St : Type}.

Implicit Types (self : CallAgent St) (w : World St).

Lemma call_closed_success : forall b (func : callable St) args w v w1,
  state b = CLOSED ->
  invoke func args w = (Ok v, w1) ->
  call b func args w = (Ok v, _on_success b, w1).
Proof.
  intros b func args w v w1 Hs Hinv. unfold call.
  rewrite gate_not_open by congruence. unfold attempt. rewrite Hinv.
  reflexivity.
Qed.

(** X14: with the three breakers CLOSED and at least one attempt allowed,
    if each service answers its first call, fed with the answer of the one
    before, the pipeline returns the synthesizer's answer: the three
    services are invoked once each in order, nobody sleeps, and nothing is
    logged or alerted. *)
Theorem pipeline_happy_path :
  forall self audio_input w text w1 response w2 audio_output w3,
    1 <= max_attempts (retry_manager self) ->
    state (stt_breaker self) = CLOSED ->
    state (llm_breaker self) = CLOSED ->
    state (tts_breaker self) = CLOSED ->
    invoke (transcribe self) [audio_input] w = (Ok text, w1) ->
    invoke (generate_response self) [text] w1 = (Ok response, w2) ->
    invoke (synthesize self) [response] w2 = (Ok audio_output, w3) ->
    exists self',
      process_call self audio_input w = Some (audio_output, self', w3) /\
      trace w3 = trace w ++
                 [EvInvoke "stt_service.transcribe" [audio_input];
                  EvInvoke "llm_service.generate_response" [text];
                  EvInvoke "tts_service.synthesize" [response]] /\
      error_log w3 = error_log w /\
      alerts_file w3 = alerts_file w.
Proof.
  intros self audio_input w text w1 response w2 audio_output w3
         Hmax S1 S2 S3 I1 I2 I3.
  set (self1 := set_stt_breaker (_on_success (stt_breaker self)) self).
  set (self2 := set_llm_breaker (_on_success (llm_breaker self1)) self1).
  set (self3 := set_tts_breaker (_on_success (tts_breaker self2)) self2).
  assert (H1 : _call_stt_service self audio_input w = Some (Ok text, self1, w1)).
  { unfold _call_stt_service.
    rewrite (retry_first_success (stt_lambda audio_input) (retry_manager self)
               "STT" [] self w text self1 w1 Hmax); [reflexivity |].
    unfold stt_lambda. rewrite (call_closed_success _ _ _ _ _ _ S1 I1).
    reflexivity. }
  assert (H2 : _call_llm_service self1 text w1 = Some (Ok response, self2, w2)).
  { unfold _call_llm_service.
    rewrite (retry_first_success (llm_lambda text) (retry_manager self1)
               "LLM" [] self1 w1 response self2 w2 Hmax); [reflexivity |].
    unfold llm_lambda.
    rewrite (call_closed_success (llm_breaker self1) (generate_response self1)
               [text] w1 response w2 S2 I2).
    reflexivity. }
  assert (H3 : _call_tts_service self2 response w2
               = Some (Ok audio_output, self3, w3)).
  { unfold _call_tts_service.
    rewrite (retry_first_success (tts_lambda response) (retry_manager self2)
               "TTS" [] self2 w2 audio_output self3 w3 Hmax); [reflexivity |].
    unfold tts_lambda.
    rewrite (call_closed_success (tts_breaker self2) (synthesize self2)
               [response] w2 audio_output w3 S3 I3).
    reflexivity. }
  exists self3. unfold process_call, process_call_try.
  rewrite H1, H2, H3. split; [reflexivity |].
  destruct (invoke_trace _ _ _ _ _ I1) as (T1 & L1 & A1).
  destruct (invoke_trace _ _ _ _ _ I2) as (T2 & L2 & A2).
  destruct (invoke_trace _ _ _ _ _ I3) as (T3 & L3 & A3).
  split; [| split; congruence].
  rewrite T3, T2, T1, <- !app_assoc. reflexivity.
Qed.

End HappyPath.

Lemma pipeline_happy_path_witness :
  let w3 := mk_world (mk_env 3 tt)
              [EvInvoke "stt_service.transcribe" [audio];
               EvInvoke "llm_service.generate_response" [VStr "text"];
               EvInvoke "tts_service.synthesize" [VStr "reply"]] [] [] in
  exists self',
    process_call agent_ok audio w0 = Some (VStr "speech", self', w3) /\
    trace w3 = trace w0 ++
               [EvInvoke "stt_service.transcribe" [audio];
                EvInvoke "llm_service.generate_response" [VStr "text"];
                EvInvoke "tts_service.synthesize" [VStr "reply"]] /\
    error_log w3 = error_log w0 /\
    alerts_file w3 = alerts_file w0.
Proof.
  cbv zeta.
  eapply (pipeline_happy_path agent_ok audio w0 (VStr "text") _
            (VStr "reply") _ (VStr "speech") _);
    try reflexivity.
  simpl. lia.
Defined.

Lemma successful_pipeline_closes_breakers_witness :
  let self' := set_tts_breaker (circuit_breaker.__init__ 3 60 "TTS")
                 (set_stt_breaker (mk_breaker 3 60 "STT" CLOSED 0 (Some 10) 0)
                    agent_stt_open) in
  (state (stt_breaker self') = CLOSED /\ failure_count (stt_breaker self') = 0) /\
  (state (llm_breaker self') = CLOSED /\ failure_count (llm_breaker self') = 0) /\
  (state (tts_breaker self') = CLOSED /\ failure_count (tts_breaker self') = 0).
Proof.
  cbv zeta.
  eapply (successful_pipeline_closes_breakers agent_stt_open audio (at_time 70)).
  - simpl. lia.
  - vm_compute. reflexivity.
Defined.

(** ** logger.py and alerts.py *)

Section FileFacts.

Context {St : Type}.

Implicit Types (w : World St).

(** X19: [get_recent_logs(count)] is the slice [logs[-count:]].  For
    [count >= 1] it is the last [count] entries of the file, or the whole
    file when it holds fewer.  For [count = 0] it is the whole file, not
    the empty list; for a negative [count] it is the file without its first
    [-count] entries. *)
Theorem recent_logs_is_tail_slice :
  forall (count : Z) w,
    let logs := error_log w in
    let recent := get_recent_logs count w in
    (1 <= count ->
     recent = skipn (length logs - Z.to_nat count) logs /\
     length recent = Nat.min (Z.to_nat count) (length logs) /\
     exists older, logs = older ++ recent) /\
    (count = 0 -> recent = logs) /\
    (count < 0 -> recent = skipn (Z.to_nat (- count)) logs).
Proof.
  intros count w logs recent. subst recent.
  unfold get_recent_logs, slice_from. fold logs.
  split; [| split].
  - intros Hc. destruct (Z.ltb_spec (- count) 0) as [_ | Hge]; [| lia].
    replace (Z.to_nat (Z.max (Z.of_nat (length logs) + - count) 0))
      with (length logs - Z.to_nat count)%nat by lia.
    split; [reflexivity |]. split.
    + rewrite length_skipn. lia.
    + exists (firstn (length logs - Z.to_nat count) logs).
      symmetry. apply firstn_skipn.
  - intros ->. cbn [Z.opp Z.ltb Z.compare].
    rewrite Z.min_l by lia. reflexivity.
  - intros Hc. destruct (Z.ltb_spec (- count) 0) as [Hlt | _]; [lia |].
    destruct (Z.le_gt_cases (- count) (Z.of_nat (length logs))) as [Hin | Hout].
    + rewrite Z.min_l by lia. reflexivity.
    + rewrite Z.min_r by lia. rewrite Nat2Z.id.
      rewrite !skipn_all2 by lia. reflexivity.
Qed.



End FileFacts.

(** ** What a reported failure leaves on file *)

Section ReportContent.

Context {St : Type}.

Implicit Types (self : CallAgent St) (w : World St).

Lemma call_err_not_half_open : forall b (func : callable St) args w e b' w',
  call b func args w = (Err e, b', w') -> state b' <> HALF_OPEN.
Proof.
  intros b func args w e b' w' Hcall.
  destruct (call_cases b func args w)
    as [[Hs Hrej] | (half & _ & Hno & _ & _ & _ & _ & _ & Hatt)].
  - rewrite Hrej in Hcall. inversion Hcall; subst. congruence.
  - rewrite Hatt in Hcall. unfold attempt in Hcall.
    destruct (invoke func args w) as [[v0 | e0] w0];
      inversion Hcall; subst e b' w'.
    destruct (on_failure_facts half w0) as (_ & _ & _ & _ & E).
    rewrite E. destruct (state half); try congruence;
      destruct (failure_threshold half <=? failure_count half + 1);
      congruence.
Qed.

Lemma recent_one_of_app : forall w (older : list log_entry) entry,
  error_log w = older ++ [entry] -> get_recent_logs 1 w = [entry].
Proof.
  intros w older entry H. unfold get_recent_logs, slice_from.
  rewrite H, length_app. cbn [length Z.opp Z.ltb Z.compare].
  replace (Z.to_nat (Z.max (Z.of_nat (length older + 1) + -1) 0))
    with (length older + 0)%nat by lia.
  rewrite skipn_app, Nat.add_0_r, skipn_all, Nat.sub_diag. reflexivity.
Qed.

(** A run that raises has made an attempt. *)
Lemma retry_err_means_attempt : forall {A : Type} rm (func : @closure St A)
  service_name args a w e a' w',
  execute_with_retry rm func service_name args a w = Some (Err e, a', w') ->
  0 < max_attempts rm.
Proof.
  intros A rm func service_name args a w e a' w' H.
  destruct (Z.lt_ge_cases 0 (max_attempts rm)) as [Hlt | Hge]; [exact Hlt |].
  unfold execute_with_retry in H.
  replace (Z.to_nat (max_attempts rm)) with 0%nat in H by lia.
  cbn [retry_loop] in H.
  destruct (Z.ltb_spec 0 (max_attempts rm)); [lia | discriminate].
Qed.

(** A stage that ends in a [TransientError] or a [PermanentError] puts it
    on file. *)
Lemma stage_call_failure_on_file : forall P
  (lam : @closure St (CallAgent St)) name breaker self w e self1 w1,
  (forall d, P (EvSleep d)) ->
  (forall args a w0 r a1 w2, lam args a w0 = (r, a1, w2) -> quiet_on P w0 w2) ->
  (forall args a w0 e0 a1 w2, lam args a w0 = (Err e0, a1, w2) ->
                              state (breaker a1) <> HALF_OPEN) ->
  stage_call lam name breaker self w = Some (Err e, self1, w1) ->
  isinstance e TransientError = true \/ isinstance e PermanentError = true ->
  failure_on_file name e w w1.
Proof.
  intros P lam name breaker self w e self1 w1 HP Hquiet Hstate Hst Hkind.
  unfold stage_call in Hst.
  destruct (execute_with_retry (retry_manager self) lam name [] self w)
    as [[[[v | e0] s0] w0] |] eqn:Hrun; try discriminate.
  pose proof (retry_err_means_attempt _ _ _ _ _ _ _ _ _ Hrun) as Hmax.
  unfold execute_with_retry in Hrun.
  destruct (retry_loop_quiet P lam _ HP Hquiet _ _ _ _ _ _ _ _ _ Hrun)
    as (Hl & Ha & _).
  pose proof (retry_loop_last_call (fun _ => True)
                (fun a => state (breaker a) <> HALF_OPEN) lam _
                (fun _ _ _ _ _ _ _ => I) Hstate _ _ _ _ _ _ _ _ _ Hmax Hrun)
    as Hnh. cbv beta iota in Hnh.
  assert (Hcs : snap_state (get_state (breaker s0)) = "CLOSED"%string \/
                snap_state (get_state (breaker s0)) = "OPEN"%string).
  { unfold get_state. simpl. destruct (state (breaker s0)); simpl; auto.
    congruence. }
  unfold failure_on_file.
  destruct (isinstance e0 TransientError) eqn:HT.
  - inversion Hst; subst e self1 w1. rewrite HT.
    eexists _, _. split; [eapply recent_one_of_app; reflexivity |].
    split; [unfold get_active_alerts; cbn [alerts_file send_alert log_error];
            rewrite filter_app, Ha; reflexivity |].
    repeat (split; [reflexivity |]). split; [exact Hcs |].
    split; reflexivity.
  - destruct (isinstance e0 PermanentError) eqn:HPm.
    + inversion Hst; subst e self1 w1. rewrite HT.
      eexists _, _. split; [eapply recent_one_of_app; reflexivity |].
      split; [unfold get_active_alerts;
              cbn [alerts_file send_alert log_error];
              rewrite filter_app, Ha; reflexivity |].
      repeat (split; [reflexivity |]). split; [exact Hcs |].
      split; reflexivity.
    + inversion Hst; subst e self1 w1.
      destruct Hkind; congruence.
Qed.

Lemma failure_on_file_after : forall name e w w1 w2,
  alerts_file w1 = alerts_file w ->
  failure_on_file name e w1 w2 -> failure_on_file name e w w2.
Proof.
  intros name e w w1 w2 Ha. unfold failure_on_file, get_active_alerts.
  rewrite Ha. auto.
Qed.


End ReportContent.

